(** * Crossroad chat: conversation resolution and message timeline

    A shallow embedding of the two screens that carry the messaging logic:
    - [ChatThread] (src/chat-thread.tsx): the message timeline held in the
      component state, the initial load, the realtime INSERT handler and
      the optimistic send;
    - [ChatList] (src/chat.tsx): [openConversation], which finds or creates
      the conversation shared by two users.

    Asynchronous functions are split at their [await]: the part that runs
    up to the request and the continuation that runs when the backend
    answers.  The backend (Supabase) is an external collaborator: its
    answers are inputs of the continuations. *)

From Stdlib Require Import String Ascii List ZArith Bool Arith Lia.
From Stdlib Require Import DecimalString Sorted.
Import ListNotations.
Open Scope string_scope.
Open Scope list_scope.

(* ================================================================== *)
(** ** JavaScript values used by the screens *)

Module Js.

(** Code units that [String.prototype.trim] strips.  Strings are modelled
    over 8-bit code units, so these are the WhiteSpace and LineTerminator
    characters below U+0100: TAB, LF, VT, FF, CR, SP and NBSP. *)
Definition isWhiteSpace (c : ascii) : bool :=
  let n := nat_of_ascii c in
  (n =? 9)%nat || (n =? 10)%nat || (n =? 11)%nat || (n =? 12)%nat
  || (n =? 13)%nat || (n =? 32)%nat || (n =? 160)%nat.

Fixpoint trimStart (s : string) : string :=
  match s with
  | EmptyString => EmptyString
  | String c rest => if isWhiteSpace c then trimStart rest else s
  end.

Fixpoint trimEnd (s : string) : string :=
  match s with
  | EmptyString => EmptyString
  | String c rest =>
      match trimEnd rest with
      | EmptyString => if isWhiteSpace c then EmptyString else String c EmptyString
      | kept => String c kept
      end
  end.

(** [s.trim()] *)
Definition trim (s : string) : string := trimEnd (trimStart s).

(** [!s] for a string: only the empty string is falsy. *)
Definition not_ (s : string) : bool :=
  match s with
  | EmptyString => true
  | String _ _ => false
  end.

(** Every code unit of [s] is white space (the empty string included). *)
Fixpoint whitespaceOnly (s : string) : bool :=
  match s with
  | EmptyString => true
  | String c rest => isWhiteSpace c && whitespaceOnly rest
  end.

(** [`${n}`] for an integral number such as [Date.now()]. *)
Definition numberToString (n : Z) : string :=
  NilZero.string_of_int (Z.to_int n).

(** [s.startsWith(p)] *)
Fixpoint startsWith (p s : string) : bool :=
  match p with
  | EmptyString => true
  | String a p' =>
      match s with
      | EmptyString => false
      | String b s' => Ascii.eqb a b && startsWith p' s'
      end
  end.

(** The [{ data, error }] pair every Supabase request resolves to. *)
Record Response (A : Type) : Type := mkResponse {
  data : option A;
  error : option string  (* [error.message] *)
}.
Arguments mkResponse {A} _ _.
Arguments data {A} _.
Arguments error {A} _.

Definition ok {A : Type} (a : A) : Response A := mkResponse (Some a) None.
Definition failed {A : Type} (msg : string) : Response A := mkResponse None (Some msg).

(** [.single()] answers with a row or with an error, never with neither. *)
Definition settled {A : Type} (r : Response A) : bool :=
  match error r, data r with
  | None, None => false
  | _, _ => true
  end.

End Js.

(* ================================================================== *)
(** ** src/chat-thread.tsx *)

Module Thread.
Import Js.

(** [id: string | number] *)
Inductive Id : Type :=
| IdStr (s : string)
| IdNum (n : Z).

(** [a === b] on ids: a string never equals a number. *)
Definition strictEq (a b : Id) : bool :=
  match a, b with
  | IdStr x, IdStr y => String.eqb x y
  | IdNum x, IdNum y => Z.eqb x y
  | _, _ => false
  end.

Record Message : Type := mkMessage {
  id : Id;
  created_at : string;
  sender_id : string;
  body : string;
  conversation_id : string
}.

(** [route.params] as far as the timeline uses them. *)
Record Props : Type := mkProps {
  userId : string;
  conversationId : string
}.

(** The [useState] cells of the component. *)
Record State : Type := mkState {
  messages : list Message;
  messageText : string;
  loadingMessages : bool;
  sendingMessage : bool;
  refreshToken : nat
}.

(** What a handler asks of the outside world. *)
Inductive Effect : Type :=
| Alert (msg : string)
| SelectMessages (conversation : string)
| InsertMessage (sender conversation text : string)
| SubscribeInserts (conversation : string)
| RemoveChannel (conversation : string).

(** Handlers read and update the state cells and emit effects. *)
Definition Act (A : Type) : Type := State -> A * State * list Effect.

Definition ret {A : Type} (a : A) : Act A := fun s => (a, s, []).

Definition bind {A B : Type} (c : Act A) (k : A -> Act B) : Act B :=
  fun s =>
    let '(a, s1, out1) := c s in
    let '(b, s2, out2) := k a s1 in
    (b, s2, out1 ++ out2).

Declare Scope act_scope.
Delimit Scope act_scope with act.
Notation "x <- c ;; k" := (bind c (fun x => k))
  (at level 61, c at next level, right associativity) : act_scope.
Notation "c ;; k" := (bind c (fun _ => k))
  (at level 61, right associativity) : act_scope.
Open Scope act_scope.

Definition setMessages (f : list Message -> list Message) : Act unit :=
  fun s => (tt, mkState (f (messages s)) (messageText s) (loadingMessages s)
                        (sendingMessage s) (refreshToken s), []).

Definition setMessageText (t : string) : Act unit :=
  fun s => (tt, mkState (messages s) t (loadingMessages s)
                        (sendingMessage s) (refreshToken s), []).

Definition setLoadingMessages (b : bool) : Act unit :=
  fun s => (tt, mkState (messages s) (messageText s) b
                        (sendingMessage s) (refreshToken s), []).

Definition setSendingMessage (b : bool) : Act unit :=
  fun s => (tt, mkState (messages s) (messageText s) (loadingMessages s)
                        b (refreshToken s), []).

Definition setRefreshToken (f : nat -> nat) : Act unit :=
  fun s => (tt, mkState (messages s) (messageText s) (loadingMessages s)
                        (sendingMessage s) (f (refreshToken s)), []).

Definition emit (e : Effect) : Act unit := fun s => (tt, s, [e]).

Definition stateOf {A : Type} (r : A * State * list Effect) : State := snd (fst r).
Definition valueOf {A : Type} (r : A * State * list Effect) : A := fst (fst r).
Definition effectsOf {A : Type} (r : A * State * list Effect) : list Effect := snd r.

(** *** loadMessages *)

(** Up to the [await]: the spinner is raised and the query is issued. *)
Definition loadMessages_begin (p : Props) : Act unit :=
  setLoadingMessages true ;;
  emit (SelectMessages (conversationId p)).

(** After the [await].  [isMounted] is the closure variable of the effect
    run that issued the query, as it stands when the answer arrives. *)
Definition loadMessages_resume (isMounted : bool)
    (r : Response (list Message)) : Act unit :=
  if negb isMounted then ret tt
  else
    match error r with
    | Some msg =>
        emit (Alert msg) ;;
        setLoadingMessages false
    | None =>
        setMessages (fun _ => match data r with Some rows => rows | None => [] end) ;;
        setLoadingMessages false
    end.

(** *** The realtime INSERT handler *)

Definition onInsert (newMessage : Message) : Act unit :=
  setMessages (fun prev =>
    if existsb (fun message => strictEq (id message) (id newMessage)) prev
    then prev
    else prev ++ [newMessage]).

(** *** sendMessage *)

(** [`temp-${Date.now()}`] *)
Definition tempId (now : Z) : Id := IdStr ("temp-" ++ numberToString now)%string.

(** What the continuation of [sendMessage] keeps from before the [await]. *)
Record SendCont : Type := mkSendCont {
  optimisticId : Id;
  trimmed : string
}.

(** Up to the [await].  [now] is [Date.now()] and [iso] is
    [new Date().toISOString()].  [None]: the function returned early. *)
Definition sendMessage_begin (p : Props) (now : Z) (iso : string)
  : Act (option SendCont) :=
  fun s =>
    let trimmed := trim (messageText s) in
    if not_ trimmed then ret None s
    else if sendingMessage s then ret None s
    else
      let optimisticId := tempId now in
      let optimisticMessage :=
        mkMessage optimisticId iso (userId p) trimmed (conversationId p) in
      (setMessages (fun prev => prev ++ [optimisticMessage]) ;;
       setMessageText "" ;;
       setSendingMessage true ;;
       emit (InsertMessage (userId p) (conversationId p) trimmed) ;;
       ret (Some (mkSendCont optimisticId trimmed))) s.

(** After the [await]. *)
Definition sendMessage_resume (k : SendCont) (r : Response Message) : Act unit :=
  match error r with
  | Some msg =>
      setMessages (fun prev =>
        filter (fun message => negb (strictEq (id message) (optimisticId k))) prev) ;;
      setMessageText (trimmed k) ;;
      emit (Alert msg) ;;
      setSendingMessage false
  | None =>
      match data r with
      | Some row =>
          setMessages (fun prev =>
            map (fun message =>
                   if strictEq (id message) (optimisticId k) then row else message)
                prev)
      | None => ret tt
      end ;;
      setSendingMessage false
  end.

(** *** The component instance and what can happen to it

    Besides the state cells, an instance owns the closures its effects and
    its pending request leave behind: which run of the load effect still has
    [isMounted = true], whether the realtime channel is registered, and the
    suspended continuation of [sendMessage]. *)

Record World : Type := mkWorld {
  ui : State;
  liveLoad : option nat;        (* run of the load effect with [isMounted = true] *)
  loadRuns : nat;               (* runs of the load effect so far *)
  channel : bool;               (* the INSERT handler is registered *)
  inflight : option SendCont;   (* [sendMessage] is suspended at its [await] *)
  effects : list Effect         (* everything emitted so far, oldest first *)
}.

Definition perform {A : Type} (a : Act A) (w : World) : A * World :=
  let '(v, s, out) := a (ui w) in
  (v, mkWorld s (liveLoad w) (loadRuns w) (channel w) (inflight w) (effects w ++ out)).

Definition perform_ (a : Act unit) (w : World) : World := snd (perform a w).

(** A new run of the load effect: its own [isMounted], then [loadMessages()]. *)
Definition runLoadEffect (p : Props) (w : World) : World :=
  let w1 := perform_ (loadMessages_begin p) w in
  mkWorld (ui w1) (Some (loadRuns w1)) (S (loadRuns w1)) (channel w1) (inflight w1) (effects w1).

(** The subscription effect: nothing without a conversation id. *)
Definition runChannelEffect (p : Props) (w : World) : World :=
  if not_ (conversationId p) then w
  else mkWorld (ui w) (liveLoad w) (loadRuns w) true (inflight w)
               (effects w ++ [SubscribeInserts (conversationId p)]).

(** First render: the initial cells, then the three effects in source order. *)
Definition mount (p : Props) : World :=
  let w0 := mkWorld (mkState [] "" false false 0) None 0 false None [] in
  let w1 := perform_ (setMessages (fun _ => [])) w0 in
  runChannelEffect p (runLoadEffect p w1).

Inductive Event : Type :=
| Typed (text : string)                 (* [onChangeText] of the composer *)
| PressSend (now : Z) (iso : string)    (* [onPress] of the send button *)
| InsertSettled (r : Response Message)  (* the insert of [sendMessage] answers *)
| Pushed (newMessage : Message)         (* the backend pushes an INSERT payload *)
| PullRefresh                           (* [onRefresh] of the list *)
| LoadSettled (run : nat) (r : Response (list Message))
                                        (* the query of load run [run] answers *)
| Deactivate.                           (* the effect cleanups run *)

Definition isLive (w : World) (run : nat) : bool :=
  match liveLoad w with
  | Some live => Nat.eqb live run
  | None => false
  end.

(** One event at an instance.  [Deactivate] runs the effect cleanups and
    nothing more; the two ways an instance ends, removed from the screen or
    given another conversation, and what still reaches it afterwards, are
    in [Lifecycle] below. *)
Definition step (p : Props) (w : World) (e : Event) : World :=
  match e with
  | Typed text =>
      (* the input is [editable] only while no send is outstanding *)
      if sendingMessage (ui w) then w else perform_ (setMessageText text) w
  | PressSend now iso =>
      let '(k, w1) := perform (sendMessage_begin p now iso) w in
      match k with
      | Some cont =>
          mkWorld (ui w1) (liveLoad w1) (loadRuns w1) (channel w1) (Some cont) (effects w1)
      | None => w1
      end
  | InsertSettled r =>
      match inflight w with
      | Some cont =>
          let w1 := perform_ (sendMessage_resume cont r) w in
          mkWorld (ui w1) (liveLoad w1) (loadRuns w1) (channel w1) None (effects w1)
      | None => w
      end
  | Pushed newMessage =>
      if channel w then perform_ (onInsert newMessage) w else w
  | PullRefresh =>
      (* the dependency changes: cleanup of the old run, then a new run *)
      runLoadEffect p (perform_ (setRefreshToken S) w)
  | LoadSettled run r =>
      perform_ (loadMessages_resume (isLive w run) r) w
  | Deactivate =>
      mkWorld (ui w) None (loadRuns w) false (inflight w)
              (effects w ++ (if channel w then [RemoveChannel (conversationId p)] else []))
  end.

Definition run (p : Props) (w : World) (es : list Event) : World :=
  fold_left (step p) es w.

(** *** Identities

    An id made by [sendMessage] starts with ["temp-"]; ids assigned by the
    backend are numbers or strings without that prefix. *)

Definition isTemp (i : Id) : bool :=
  match i with
  | IdStr s => startsWith "temp-" s
  | IdNum _ => false
  end.

Definition isServerId (i : Id) : bool := negb (isTemp i).

Definition isPending (m : Message) : bool := isTemp (id m).
Definition isConfirmed (m : Message) : bool := isServerId (id m).

(** What the backend may put into an event: rows carrying backend ids, and
    for the insert an answer that is a row or an error. *)
Definition fromBackend (e : Event) : bool :=
  match e with
  | InsertSettled r =>
      settled r && match data r with Some row => isConfirmed row | None => true end
  | Pushed newMessage => isConfirmed newMessage
  | LoadSettled _ r =>
      match data r with Some rows => forallb isConfirmed rows | None => true end
  | _ => true
  end.

(** How many entries of the timeline are still unconfirmed. *)
Definition pendingCount (l : list Message) : nat := length (filter isPending l).

Definition countId (i : Id) (l : list Message) : nat :=
  length (filter (fun message => strictEq (id message) i) l).

Definition hasId (i : Id) (l : list Message) : bool :=
  existsb (fun message => strictEq (id message) i) l.

(** *** The order the specification asks of the snapshot

    Created-at ascending, ties broken by id.  The component has no such
    comparison; this one is written from the specification: created-at as
    text, numeric ids by value, textual ids as text, numbers first. *)

Definition spec_idLeb (a b : Id) : bool :=
  match a, b with
  | IdNum x, IdNum y => Z.leb x y
  | IdNum _, IdStr _ => true
  | IdStr _, IdNum _ => false
  | IdStr x, IdStr y => String.leb x y
  end.

Definition spec_before (a b : Message) : bool :=
  match String.compare (created_at a) (created_at b) with
  | Lt => true
  | Eq => spec_idLeb (id a) (id b)
  | Gt => false
  end.

Fixpoint spec_sorted (l : list Message) : bool :=
  match l with
  | [] => true
  | a :: rest =>
      match rest with
      | [] => true
      | b :: _ => spec_before a b && spec_sorted rest
      end
  end.

(** *** The invariant of the instance

    What holds of the timeline and the suspended send in every state the
    instance reaches: the flag is raised exactly while a send is suspended,
    its token is a ["temp-"] id, every pending entry carries that token and
    there is at most one such entry. *)
Record Inv (s : State) (f : option SendCont) : Prop := mkInv {
  inv_flag : sendingMessage s = match f with Some _ => true | None => false end;
  inv_token : forall k, f = Some k -> isTemp (optimisticId k) = true;
  inv_pending : forall m, In m (messages s) -> isPending m = true ->
                exists k, f = Some k /\ id m = optimisticId k;
  inv_count : (pendingCount (messages s) <= 1)%nat
}.

End Thread.

(* ================================================================== *)
(** ** src/chat.tsx *)

Module ChatList.
Import Js.

Record Profile : Type := mkProfile {
  id : string;
  email : option string;
  name : option string;
  avatar_url : option string
}.

(** A row of [conversation_members]. *)
Record Member : Type := mkMember {
  conversation_id : string;
  user_id : string
}.

(** The two tables [openConversation] reads and writes, rows in table order. *)
Record Db : Type := mkDb {
  conversations : list string;
  conversation_members : list Member
}.

(** How the backend answers the requests of one call: the error of each
    request, if any, and for the conversation insert the row it returns. *)
Record Backend : Type := mkBackend {
  membershipError : option string;
  sharedError : option string;
  conversationInsert : Response string;   (* [data.id] and [error.message] *)
  memberInsertError : option string
}.

Inductive Request : Type :=
| SelectMemberships (user : string)
| SelectShared (user : string) (conversationIds : list string)
| InsertConversation
| InsertMembers (rows : list Member).

(** The parameters handed to [navigation.navigate('ChatThread', ...)]. *)
Record ChatThreadParams : Type := mkParams {
  userId : string;
  conversationId : string;
  profileId : string;
  profileName : option string;
  profileEmail : option string;
  profileAvatarUrl : option string
}.

Inductive Outcome : Type :=
| Navigated (params : ChatThreadParams)
| Alerted (msg : string).

(** [.from('conversation_members').select('conversation_id').eq('user_id', u)] *)
Definition selectMemberships (db : Db) (user : string) : list string :=
  map conversation_id
      (filter (fun member => String.eqb (user_id member) user)
              (conversation_members db)).

(** [... .eq('user_id', u).in('conversation_id', ids).limit(1)] *)
Definition selectShared (db : Db) (user : string) (ids : list string) : list string :=
  map conversation_id
      (firstn 1
         (filter (fun member =>
                    String.eqb (user_id member) user
                    && existsb (String.eqb (conversation_id member)) ids)
                 (conversation_members db))).

Definition insertConversation (db : Db) (newId : string) : Db :=
  mkDb (conversations db ++ [newId]) (conversation_members db).

Definition insertMembers (db : Db) (rows : list Member) : Db :=
  mkDb (conversations db) (conversation_members db ++ rows).

Definition paramsFor (userId conversationId : string) (profile : Profile)
  : ChatThreadParams :=
  mkParams userId conversationId (id profile) (name profile) (email profile)
           (avatar_url profile).

(** The first two requests: the shared conversation if there is one. *)
Definition lookupShared (env : Backend) (userId : string) (profile : Profile)
    (db : Db) : (string + option string) * list Request :=
  match membershipError env with
  | Some msg => (inl msg, [SelectMemberships userId])
  | None =>
      let conversationIds := selectMemberships db userId in
      match conversationIds with
      | [] => (inr None, [SelectMemberships userId])
      | _ :: _ =>
          let asked := [SelectMemberships userId;
                        SelectShared (id profile) conversationIds] in
          match sharedError env with
          | Some msg => (inl msg, asked)
          | None =>
              match selectShared db (id profile) conversationIds with
              | first :: _ => (inr (Some first), asked)
              | [] => (inr None, asked)
              end
          end
      end
  end.

(** [openConversation(profile)] for the signed-in [userId]: what the screen
    does in the end, the tables afterwards and the requests it made. *)
Definition openConversation (env : Backend) (userId : string) (profile : Profile)
    (db : Db) : Outcome * Db * list Request :=
  match lookupShared env userId profile db with
  | (inl msg, asked) => (Alerted msg, db, asked)
  | (inr (Some shared), asked) =>
      (Navigated (paramsFor userId shared profile), db, asked)
  | (inr None, asked) =>
      let asked1 := asked ++ [InsertConversation] in
      match error (conversationInsert env), data (conversationInsert env) with
      | Some msg, _ => (Alerted msg, db, asked1)
      | None, None => (Alerted "Unable to start chat.", db, asked1)
      | None, Some conversation =>
          let db1 := insertConversation db conversation in
          let rows := [mkMember conversation userId;
                       mkMember conversation (id profile)] in
          let asked2 := asked1 ++ [InsertMembers rows] in
          match memberInsertError env with
          | Some msg => (Alerted msg, db1, asked2)
          | None =>
              (Navigated (paramsFor userId conversation profile),
               insertMembers db1 rows, asked2)
          end
      end
  end.

(** [resolve(selfId, otherId)]: the conversation id the screen navigates to. *)
Definition resolved (o : Outcome) : option string :=
  match o with
  | Navigated params => Some (conversationId params)
  | Alerted _ => None
  end.

Definition isInsert (r : Request) : bool :=
  match r with
  | InsertConversation | InsertMembers _ => true
  | _ => false
  end.

(** *** The data-model invariants of the backend *)

Definition membersOf (db : Db) (conversation : string) : list string :=
  map user_id
      (filter (fun member => String.eqb (conversation_id member) conversation)
              (conversation_members db)).

(** The membership set of [conversation] is exactly {a, b}. *)
Definition isPair (db : Db) (a b conversation : string) : bool :=
  forallb (fun u => String.eqb u a || String.eqb u b) (membersOf db conversation)
  && existsb (String.eqb a) (membersOf db conversation)
  && existsb (String.eqb b) (membersOf db conversation).

(** At most one conversation has membership set exactly {a, b}. *)
Definition uniquePair (db : Db) (a b : string) : bool :=
  (length (nodup string_dec
             (filter (isPair db a b)
                     (map conversation_id (conversation_members db)))) <=? 1)%nat.

(** No conversation has more than two participants. *)
Definition twoParty (db : Db) : bool :=
  forallb (fun member =>
             (length (nodup string_dec (membersOf db (conversation_id member))) <=? 2)%nat)
          (conversation_members db).

(** The rows the shared-conversation query of [openConversation] selects
    from, before [limit(1)]. *)
Definition sharedRows (db : Db) (self other : string) : list Member :=
  filter (fun member =>
            String.eqb (user_id member) other
            && existsb (String.eqb (conversation_id member))
                       (selectMemberships db self))
         (conversation_members db).

(** Neither of the two queries fails. *)
Definition quiet (env : Backend) : bool :=
  match membershipError env, sharedError env with
  | None, None => true
  | _, _ => false
  end.

End ChatList.

(* ================================================================== *)
(** ** Concrete runs used below *)

Module Scenario.
Import Js Thread.

Definition props : Props := mkProps "u1" "c1".

(** The composer holds white space only. *)
Definition blankWorld : World :=
  step props (mount props)
       (Typed (String " " (String (ascii_of_nat 9) (String (ascii_of_nat 10) " ")))).

(** "hi" typed with blanks around it, then sent at [Date.now() = 42]. *)
Definition hiTyped : State := mkState [] " hi " false false 0.

Definition hiSent : State :=
  stateOf (sendMessage_begin props 42 "2024-01-01T00:00:00.000Z" hiTyped).

Definition hiCont : SendCont := mkSendCont (tempId 42) "hi".

(** The row the backend stores for that send. *)
Definition m1 : Message :=
  mkMessage (IdStr "m1") "2024-01-01T00:00:01.000Z" "u1" "hi" "c1".

(** A row of the other participant, written a day earlier. *)
Definition m0 : Message :=
  mkMessage (IdStr "m0") "2023-12-31T00:00:00.000Z" "u2" "hello" "c1".

(** Empty conversation opened, "hi" typed and sent. *)
Definition sending : list Event :=
  [LoadSettled 0 (ok []); Typed "hi"; PressSend 42 "2024-01-01T00:00:00.000Z"].

(** The push of the stored row overtakes the answer of the insert. *)
Definition pushFirst : list Event :=
  sending ++ [Pushed m1; InsertSettled (ok m1)].

(** The answer of the insert comes first, the push second. *)
Definition confirmFirst : list Event :=
  sending ++ [InsertSettled (ok m1); Pushed m1].

(** The user leaves the conversation while the insert is outstanding. *)
Definition leftWhileSending : list Event :=
  sending ++ [Deactivate].

(** One row loaded, then an older row of the other participant is pushed. *)
Definition olderPushed : list Event :=
  [LoadSettled 0 (ok [m1]); Pushed m0].

(** Two rows written one millisecond apart by the two participants. *)
Definition writtenFirst : Message :=
  mkMessage (IdStr "m7") "2024-01-01T00:00:05.001Z" "u2" "first" "c1".

Definition writtenSecond : Message :=
  mkMessage (IdStr "m8") "2024-01-01T00:00:05.002Z" "u1" "second" "c1".

(** Their pushes arrive in the other order. *)
Definition crossedPushes : list Event :=
  [LoadSettled 0 (ok []); Pushed writtenSecond; Pushed writtenFirst].

(** The user then pulls to refresh and the query answers in created-at
    order, as it is asked to. *)
Definition crossedThenRefreshed : list Event :=
  crossedPushes ++ [PullRefresh; LoadSettled 1 (ok [writtenFirst; writtenSecond])].

(** A full exchange: load, a pushed row, a send that is confirmed, a send
    that fails, a refresh. *)
Definition exchange : list Event :=
  [LoadSettled 0 (ok [m0]); Typed "hi"; PressSend 42 "2024-01-01T00:00:00.000Z";
   Pushed (mkMessage (IdNum 7) "2024-01-01T00:00:00.500Z" "u2" "hey" "c1");
   InsertSettled (ok m1); Typed "again"; PressSend 43 "2024-01-01T00:00:02.000Z";
   InsertSettled (failed "rejected"); PullRefresh; LoadSettled 1 (ok [m0; m1])].

End Scenario.

Module ResolverScenario.
Import Js ChatList.

Definition ann : Profile := mkProfile "u1" (Some "ann@example.org") (Some "Ann") None.
Definition bob : Profile := mkProfile "u2" (Some "bob@example.org") None None.

(** Every request succeeds and the new conversation gets id ["c9"]. *)
Definition healthy : Backend := mkBackend None None (ok "c9") None.

(** Ann talks to a third user, nobody talks to Bob yet. *)
Definition before : Db :=
  mkDb ["c1"] [mkMember "c1" "u1"; mkMember "c1" "u3"].

(** The tables once Ann has opened the conversation with Bob. *)
Definition after : Db :=
  mkDb ["c1"; "c9"]
       [mkMember "c1" "u1"; mkMember "c1" "u3";
        mkMember "c9" "u1"; mkMember "c9" "u2"].

End ResolverScenario.

(* ================================================================== *)
(** ** What an instance of [ChatThread] has asked of the backend *)

Module ThreadTrace.
Import Js Thread.

Definition isChannelEffect (e : Effect) : bool :=
  match e with
  | SubscribeInserts _ | RemoveChannel _ => true
  | _ => false
  end.

(** The subscription requests of a trace, oldest first. *)
Definition channelEffects (l : list Effect) : list Effect :=
  filter isChannelEffect l.

(** An insert request made in the name of the instance: its own sender and
    conversation, and a body that is not empty and has nothing to trim. *)
Definition ownInsert (p : Props) (e : Effect) : bool :=
  match e with
  | InsertMessage sender conversation text =>
      String.eqb sender (userId p) && String.eqb conversation (conversationId p)
      && negb (not_ text) && String.eqb (trim text) text
  | _ => true
  end.

(** The subscription requests made so far fit the state of the channel. *)
Definition channelFits (p : Props) (w : World) : Prop :=
  if not_ (conversationId p)
  then channel w = false /\ channelEffects (effects w) = []
  else (channel w = true
        /\ channelEffects (effects w) = [SubscribeInserts (conversationId p)])
       \/ (channel w = false
           /\ channelEffects (effects w)
              = [SubscribeInserts (conversationId p); RemoveChannel (conversationId p)]).

End ThreadTrace.

(* ================================================================== *)
(** ** How an instance of [ChatThread] ends

    An instance is closed in one of two ways.  Either its screen is removed
    (the user goes back): the cleanups run and the component is unmounted.
    Or the same component is given another conversation id: the cleanups of
    the effects that depend on it run, then those effects run again for the
    new id, the first of them emptying the timeline. *)

Module Lifecycle.
Import Js Thread.

(** React keeps no state cell of a component that is no longer mounted and
    drops every call of its setters.  What a callback does besides calling
    setters, raising an alert, still happens. *)
Definition dropSetters {A : Type} (a : Act A) : Act A :=
  fun s => let '(v, _, out) := a s in (v, s, out).

(** The screen is removed. *)
Definition unmount (p : Props) (w : World) : World := step p w Deactivate.

(** What the backend may still answer to an instance that is unmounted. *)
Inductive Late : Type :=
| LateLoad (run : nat) (r : Response (list Message))
| LatePush (newMessage : Message)
| LateInsert (r : Response Message).

(** A late answer at an unmounted instance: the callback that is still
    registered runs, with its setters dropped. *)
Definition late (w : World) (e : Late) : World :=
  match e with
  | LateLoad n r =>
      perform_ (dropSetters (loadMessages_resume (isLive w n) r)) w
  | LatePush newMessage =>
      if channel w then perform_ (dropSetters (onInsert newMessage)) w else w
  | LateInsert r =>
      match inflight w with
      | Some cont =>
          let w1 := perform_ (dropSetters (sendMessage_resume cont r)) w in
          mkWorld (ui w1) (liveLoad w1) (loadRuns w1) (channel w1) None (effects w1)
      | None => w
      end
  end.

(** The component stays and [conversationId] changes from that of [p] to
    that of [next]: the cleanups, then [setMessages([])], a new run of the
    load effect and a new subscription. *)
Definition switchConversation (p next : Props) (w : World) : World :=
  let closed := step p w Deactivate in
  let emptied := perform_ (setMessages (fun _ => [])) closed in
  runChannelEffect next (runLoadEffect next emptied).

(** None of the events is the answer of an insert. *)
Definition noInsertAnswer (es : list Event) : bool :=
  forallb (fun e => match e with InsertSettled _ => false | _ => true end) es.

Definition isAlert (e : Effect) : bool :=
  match e with
  | Alert _ => true
  | _ => false
  end.

(** While the answer of the send that was suspended at the change is
    awaited: that send is still the suspended one, the flag is up, and
    every entry of the timeline is a row of the backend. *)
Definition awaiting (k : SendCont) (w : World) : Prop :=
  inflight w = Some k
  /\ sendingMessage (ui w) = true
  /\ forallb isConfirmed (messages (ui w)) = true.

(** The conversation the user moves on to, and what arrives there. *)
Definition nextProps : Props := mkProps "u1" "c2".

Definition elsewhere : Message :=
  mkMessage (IdNum 31) "2024-01-01T00:00:03.000Z" "u3" "hey" "c2".

Definition arrivals : list Event :=
  [LoadSettled 1 (ok [elsewhere]);
   Pushed (mkMessage (IdNum 32) "2024-01-01T00:00:04.000Z" "u3" "there?" "c2")].

End Lifecycle.

(* ================================================================== *)
(** ** Names and initials shown for a profile
       (src/chat-thread.tsx, src/chat.tsx, src/account.tsx) *)

Module Display.
Import Js.

(** [s?.trim()] *)
Definition optTrim (s : option string) : option string := option_map trim s.


(** [a || d] where [a] is a string, [null] or [undefined]. *)
Definition orString (a : option string) (d : string) : string :=
  match a with
  | Some (String c rest) => String c rest
  | _ => d
  end.

(** [a ?? d] *)
Definition nullish (a : option string) (d : string) : string :=
  match a with
  | Some x => x
  | None => d
  end.

(** [!!a] *)
Definition truthy (a : option string) : bool :=
  match a with
  | Some (String _ _) => true
  | _ => false
  end.

(** The title of the thread header:
    [profileName?.trim() || profileEmail || 'Chat']. *)
Definition headerTitle (profileName profileEmail : option string) : string :=
  orString (optTrim profileName) (orString profileEmail "Chat").

(** The title of a row of the chat list:
    [item.name?.trim() || item.email || 'Unknown user']. *)
Definition chatRowTitle (name email : option string) : string :=
  orString (optTrim name) (orString email "Unknown user").

(** The text under the welcome card of the account screen. *)
Definition accountSubtitle (email name : option string) : string :=
  match name with
  | Some (String c rest) =>
      ("Signed in as " ++ String c rest
       ++ (if truthy email then " (" ++ nullish email "" ++ ")" else ""))%string
  | _ => nullish email "Session active on this device."
  end.

Section Initial.

(** [String.prototype.toUpperCase], left open: on 8-bit code units it is
    not a map of code units (it lengthens some and leaves the range). *)
Variable toUpperCase : string -> string.



End Initial.

End Display.

(* ================================================================== *)
(** ** The sign-up screens
       ([Auth] and [SignupFullName], src/signup-profile-picture.tsx) *)

Module Signup.
Import Js.

Inductive Route : Type :=
| Auth
| SignupFullName (email password : string)
| SignupProfilePicture (email password fullName : string).

(** [Asset] of the image picker, as far as the screen reads it. *)
Record Asset : Type := mkAsset {
  uri : option string;
  base64 : option string;
  fileName : option string;
  type : option string
}.

(** What [launchImageLibrary] resolves to. *)
Record PickerResult : Type := mkPickerResult {
  didCancel : bool;
  assets : option (list Asset)
}.

Record User : Type := mkUser { id : string }.
Record Session : Type := mkSession { user : User }.

(** [data] of [auth.signUp] and [auth.signInWithPassword]. *)
Record AuthData : Type := mkAuthData {
  data_user : option User;
  data_session : option Session
}.

Record AuthResponse : Type := mkAuthResponse {
  data : AuthData;
  error : option string
}.

(** How the backend answers the requests of one [handleCreateAccount]. *)
Record Backend : Type := mkBackend {
  signUp : AuthResponse;
  signInWithPassword : AuthResponse;
  uploadError : option string;
  getPublicUrl : string -> string;
  profileError : option string
}.

(** What a handler does, in order. *)
Inductive Action : Type :=
| Alert (msg : string)
| Navigate (route : Route)
| SetUploading (b : bool)
| SignUp (email password full_name : string)
| SignInWithPassword (email password : string)
| Upload (filePath payload contentType : string)
| UpsertProfile (id name email avatar_url : string).

(** *** Auth *)

Definition signUpWithEmail (email password : string) : list Action :=
  let trimmedEmail := trim email in
  if not_ trimmedEmail || not_ password
  then [Alert "Please enter your email and password."]
  else [Navigate (SignupFullName trimmedEmail password)].

(** *** SignupFullName, with [email] and [password] from the route *)

Definition handleContinue (email password fullName : string) : list Action :=
  let trimmedName := trim fullName in
  let trimmedEmail := trim email in
  if not_ trimmedName then [Alert "Please enter your full name."]
  else if not_ trimmedEmail || not_ password
  then [Alert "Missing signup details. Please try again."; Navigate Auth]
  else [Navigate (SignupProfilePicture trimmedEmail password trimmedName)].

(** *** SignupProfilePicture *)

(** [s.split(sep)] for a separator of one code unit. *)
Fixpoint split (sep : ascii) (s : string) : list string :=
  match s with
  | EmptyString => [EmptyString]
  | String c rest =>
      if Ascii.eqb c sep then EmptyString :: split sep rest
      else match split sep rest with
           | head :: tail => String c head :: tail
           | [] => [String c EmptyString]
           end
  end.

(** [l.pop()] as a value: the last element. *)
Fixpoint pop (l : list string) : option string :=
  match l with
  | [] => None
  | [x] => Some x
  | _ :: rest => pop rest
  end.

(** [toLowerCase] on an 8-bit code unit: A-Z and the letters of
    U+00C0..U+00DE (all but the multiplication sign U+00D7) move up by 32. *)
Definition lowerUnit (c : ascii) : ascii :=
  let n := nat_of_ascii c in
  if ((65 <=? n) && (n <=? 90)
      || (192 <=? n) && (n <=? 222) && negb (n =? 215))%nat
  then ascii_of_nat (n + 32)
  else c.

Fixpoint toLowerCase (s : string) : string :=
  match s with
  | EmptyString => EmptyString
  | String c rest => String (lowerUnit c) (toLowerCase rest)
  end.

(** [image.fileName?.split('.').pop()?.toLowerCase() ?? 'jpg'] *)
Definition extensionOf (image : Asset) : string :=
  match fileName image with
  | None => "jpg"
  | Some f =>
      match pop (split "." f) with
      | Some last => toLowerCase last
      | None => "jpg"
      end
  end.

(** [image.type ?? (extension === 'jpg' ? 'image/jpeg' : `image/${extension}`)] *)
Definition contentTypeOf (image : Asset) (extension : string) : string :=
  match type image with
  | Some t => t
  | None => if String.eqb extension "jpg" then "image/jpeg"
            else ("image/" ++ extension)%string
  end.

(** [`${userId}/profile.${extension}`] *)
Definition filePathOf (userId extension : string) : string :=
  (userId ++ "/profile." ++ extension)%string.

(** [pickImage] after the picker has answered: the [image] cell afterwards
    and what the user is shown. *)
Definition pickImage (result : PickerResult) (image : option Asset)
  : option Asset * list Action :=
  if didCancel result then (image, [])
  else
    let asset := match assets result with
                 | Some (first :: _) => Some first
                 | _ => None
                 end in
    match asset with
    | Some a =>
        match uri a, base64 a with
        | Some (String _ _), Some (String _ _) => (Some a, [])
        | _, _ => (image, [Alert "Unable to load image. Please try again."])
        end
    | None => (image, [Alert "Unable to load image. Please try again."])
    end.

(** [data.session?.user?.id ?? data.user?.id ?? null] *)
Definition userIdOf (d : AuthData) : option string :=
  match data_session d with
  | Some s => Some (id (user s))
  | None => option_map id (data_user d)
  end.

(** The part of [handleCreateAccount] inside [try], from the upload on.
    [payload] is the base64 text of the picture; the bytes that
    [decode] makes of it are not modelled. *)
Definition uploadAndSave (env : Backend) (image : Asset) (payload : string)
    (userId trimmedEmail fullName : string) : list Action :=
  let extension := extensionOf image in
  let contentType := contentTypeOf image extension in
  let filePath := filePathOf userId extension in
  Upload filePath payload contentType
  :: match uploadError env with
     | Some msg => [Alert msg]
     | None =>
         let avatarUrl := getPublicUrl env filePath in
         UpsertProfile userId fullName trimmedEmail avatarUrl
         :: match profileError env with
            | Some msg => [Alert msg]
            | None => []
            end
     end.

(** The body of [try]. *)
Definition createAccount (env : Backend) (image : Asset) (payload : string)
    (trimmedEmail password fullName : string) : list Action :=
  SignUp trimmedEmail password fullName
  :: match error (signUp env) with
     | Some msg => [Alert msg]
     | None =>
         let userId := userIdOf (data (signUp env)) in
         let afterSignIn (userId : option string) : list Action :=
           match userId with
           | Some (String c rest) =>
               uploadAndSave env image payload (String c rest) trimmedEmail fullName
           | _ => [Alert "Account created. Please sign in to continue.";
                   Navigate Auth]
           end in
         match data_session (data (signUp env)) with
         | Some _ => afterSignIn userId
         | None =>
             SignInWithPassword trimmedEmail password
             :: match error (signInWithPassword env) with
                | Some _ => [Alert "Account created. Please sign in to continue.";
                             Navigate Auth]
                | None =>
                    afterSignIn
                      match data_session (data (signInWithPassword env)) with
                      | Some s => Some (id (user s))
                      | None => userId
                      end
                end
         end
     end.

(** [handleCreateAccount], with [email], [password] and [fullName] from the
    route and [image] from the state. *)
Definition handleCreateAccount (env : Backend) (image : option Asset)
    (email password fullName : string) : list Action :=
  match image with
  | Some (mkAsset (Some (String u us)) (Some (String b bs)) f t) =>
      let picked := mkAsset (Some (String u us)) (Some (String b bs)) f t in
      let trimmedEmail := trim email in
      if not_ trimmedEmail || not_ password
      then [Alert "Missing signup details. Please try again."; Navigate Auth]
      else
        SetUploading true
        :: createAccount env picked (String b bs) trimmedEmail password fullName
        ++ [SetUploading false]
  | _ => [Alert "Please choose a profile photo."]
  end.

(** The [uploading] cell after a handler has run from [before]. *)
Definition uploadingAfter (before : bool) (trace : list Action) : bool :=
  fold_left (fun u a => match a with SetUploading b => b | _ => u end) trace before.

(** [s] contains the code unit [c]. *)
Fixpoint hasUnit (c : ascii) (s : string) : bool :=
  match s with
  | EmptyString => false
  | String d rest => Ascii.eqb d c || hasUnit c rest
  end.

(** The picture cell after the picker has answered each of [results]. *)
Definition pickAll (results : list PickerResult) : option Asset :=
  fold_left (fun image result => fst (pickImage result image)) results None.

(** An asset the screen accepts: it has a uri and its base64 content. *)
Definition usable (a : Asset) : bool :=
  match uri a, base64 a with
  | Some (String _ _), Some (String _ _) => true
  | _, _ => false
  end.

(** A picture taken from the library, named as cameras name their files. *)
Definition photo : Asset :=
  mkAsset (Some "file:///tmp/IMG_0001.JPG") (Some "/9j/4AAQ")
          (Some "IMG_0001.JPG") None.

(** Sign-up answers with a session for user ["u7"]; everything succeeds. *)
Definition welcoming : Backend :=
  mkBackend
    (mkAuthResponse (mkAuthData (Some (mkUser "u7")) (Some (mkSession (mkUser "u7"))))
                    None)
    (mkAuthResponse (mkAuthData None None) None)
    None
    (fun filePath => ("https://cdn.example.org/avatars/" ++ filePath)%string)
    None.

(** The requests to the object store and to the profile table. *)
Definition isStorage (a : Action) : bool :=
  match a with
  | Upload _ _ _ | UpsertProfile _ _ _ _ => true
  | _ => false
  end.

Definition isSetUploading (a : Action) : bool :=
  match a with
  | SetUploading _ => true
  | _ => false
  end.

End Signup.

(* ================================================================== *)
(** ** The resolver and the ids the backend assigns *)

Module ResolverMore.
Import Js ChatList.


(** The conversation insert succeeds with ["c8"], the membership insert is
    rejected. *)
Definition membersRejected : Backend :=
  mkBackend None None (ok "c8") (Some "rejected").

End ResolverMore.

(* ================================================================== *)
(** Split a goal into its conjuncts, and nothing else. *)
Ltac conjuncts := repeat match goal with |- _ /\ _ => split end.

(* ================================================================== *)
(** ** Facts about [trim] *)

Module JsFacts.
Import Js.

Lemma trimStart_whitespaceOnly (s : string) :
  whitespaceOnly s = true -> trimStart s = "".
Proof.
  induction s as [|c rest IH]; simpl; [reflexivity|].
  intros H. apply andb_true_iff in H as [Hc Hrest].
  rewrite Hc. now apply IH.
Qed.

Lemma trimEnd_empty_iff (s : string) :
  trimEnd s = "" <-> whitespaceOnly s = true.
Proof.
  induction s as [|c rest IH]; simpl; [tauto|].
  destruct (trimEnd rest) eqn:E.
  - destruct (isWhiteSpace c); simpl.
    + split; intros _; [now apply IH | reflexivity].
    + split; discriminate.
  - split; [discriminate|].
    intros H. apply andb_true_iff in H as [_ Hrest].
    apply IH in Hrest. discriminate.
Qed.

Lemma whitespaceOnly_trimStart (s : string) :
  whitespaceOnly (trimStart s) = true -> whitespaceOnly s = true.
Proof.
  induction s as [|c rest IH]; simpl; [trivial|].
  destruct (isWhiteSpace c) eqn:Hc; simpl.
  - exact IH.
  - rewrite Hc. simpl. trivial.
Qed.

(** [trim] yields the empty string exactly on the strings made of white
    space only. *)
Lemma trim_empty_iff (s : string) :
  trim s = "" <-> whitespaceOnly s = true.
Proof.
  unfold trim. split.
  - intros H. apply whitespaceOnly_trimStart. now apply trimEnd_empty_iff.
  - intros H. now rewrite (trimStart_whitespaceOnly s H).
Qed.

Lemma not_true_iff (s : string) : not_ s = true <-> s = "".
Proof. destruct s; simpl; split; congruence. Qed.

End JsFacts.

(* ================================================================== *)
(** ** The timeline of [ChatThread] *)

Module ThreadFacts.
Import Js JsFacts Thread Scenario.

Lemma strictEq_eq (a b : Id) : strictEq a b = true <-> a = b.
Proof.
  destruct a as [x|x], b as [y|y]; simpl; split; intros H;
    try discriminate; try congruence.
  - apply String.eqb_eq in H. now subst.
  - inversion H. apply String.eqb_refl.
  - apply Z.eqb_eq in H. now subst.
  - inversion H. apply Z.eqb_refl.
Qed.

Lemma strictEq_refl (a : Id) : strictEq a a = true.
Proof. now apply strictEq_eq. Qed.

Lemma strictEq_sym (a b : Id) : strictEq a b = strictEq b a.
Proof.
  destruct (strictEq a b) eqn:E, (strictEq b a) eqn:F; trivial.
  - apply strictEq_eq in E. subst. rewrite strictEq_refl in F. discriminate.
  - apply strictEq_eq in F. subst. rewrite strictEq_refl in E. discriminate.
Qed.

Lemma world_eta (w : World) :
  mkWorld (ui w) (liveLoad w) (loadRuns w) (channel w) (inflight w) (effects w) = w.
Proof. now destruct w. Qed.

Lemma state_eta (s : State) :
  mkState (messages s) (messageText s) (loadingMessages s) (sendingMessage s)
          (refreshToken s) = s.
Proof. now destruct s. Qed.

Lemma isTemp_tempId (now : Z) : isTemp (tempId now) = true.
Proof. reflexivity. Qed.

Lemma hasId_filter_out (i : Id) (l : list Message) :
  hasId i (filter (fun message => negb (strictEq (id message) i)) l) = false.
Proof.
  unfold hasId. induction l as [|m l IH]; simpl; [reflexivity|].
  destruct (strictEq (id m) i) eqn:E; simpl; [exact IH|].
  now rewrite E, IH.
Qed.

Lemma filter_out_shorter (i : Id) (l : list Message) :
  hasId i l = true ->
  (length (filter (fun message => negb (strictEq (id message) i)) l) < length l)%nat.
Proof.
  unfold hasId. induction l as [|m l IH]; simpl; [discriminate|].
  intros H. destruct (strictEq (id m) i) eqn:E; simpl.
  - pose proof (filter_length_le (fun message => negb (strictEq (id message) i)) l).
    lia.
  - simpl in H. apply IH in H. lia.
Qed.

Lemma filter_idem {A : Type} (f : A -> bool) (l : list A) :
  filter f (filter f l) = filter f l.
Proof.
  induction l as [|a l IH]; simpl; [reflexivity|].
  destruct (f a) eqn:E; simpl; [rewrite E|]; now rewrite ?IH.
Qed.

(** What [sendMessage] does when it goes ahead. *)
Lemma sendMessage_begin_some (p : Props) (now : Z) (iso : string)
    (s s1 : State) (k : SendCont) (out : list Effect) :
  sendMessage_begin p now iso s = (Some k, s1, out) ->
  not_ (trim (messageText s)) = false
  /\ sendingMessage s = false
  /\ k = mkSendCont (tempId now) (trim (messageText s))
  /\ s1 = mkState (messages s ++ [mkMessage (tempId now) iso (userId p)
                                    (trim (messageText s)) (conversationId p)])
                  "" (loadingMessages s) true (refreshToken s)
  /\ out = [InsertMessage (userId p) (conversationId p) (trim (messageText s))].
Proof.
  unfold sendMessage_begin.
  destruct (not_ (trim (messageText s))) eqn:Hn; [discriminate|].
  destruct (sendingMessage s) eqn:Hs; [discriminate|].
  cbn. intros H. inversion H. subst. repeat split; reflexivity.
Qed.

(** C7. A composer text that is empty or white space only is rejected by
    [sendMessage] before anything happens: no entry is appended, no insert
    is requested, no state cell and no closure of the instance changes. *)
Theorem send_blank_is_rejected (p : Props) (now : Z) (iso : string) (w : World) :
  whitespaceOnly (messageText (ui w)) = true ->
  sendMessage_begin p now iso (ui w) = (None, ui w, [])
  /\ step p w (PressSend now iso) = w.
Proof.
  intros Hws.
  assert (Hb : sendMessage_begin p now iso (ui w) = (None, ui w, [])).
  { unfold sendMessage_begin.
    apply trim_empty_iff in Hws. rewrite Hws. reflexivity. }
  split; [exact Hb|].
  unfold step, perform. rewrite Hb, app_nil_r. apply world_eta.
Qed.

Lemma send_blank_is_rejected_witness :
  whitespaceOnly (messageText (ui blankWorld)) = true
  /\ step props blankWorld (PressSend 1700000000000 "2023-11-14T22:13:20.000Z")
     = blankWorld.
Proof.
  split; [reflexivity|].
  apply (send_blank_is_rejected props 1700000000000
           "2023-11-14T22:13:20.000Z" blankWorld).
  reflexivity.
Defined.

(** C5. When the insert of a send fails, the continuation removes every
    entry carrying the correlation token of that send, keeps the other
    entries as they were and in their order, and puts the body of the
    withdrawn message back into the composer. *)
Theorem send_failure_withdraws (p : Props) (now : Z) (iso : string)
    (s0 s1 : State) (k : SendCont) (out : list Effect)
    (s : State) (d : option Message) (msg : string) :
  sendMessage_begin p now iso s0 = (Some k, s1, out) ->
  hasId (optimisticId k) (messages s) = true ->
  let others := fun message => negb (strictEq (id message) (optimisticId k)) in
  let s' := stateOf (sendMessage_resume k (mkResponse d (Some msg)) s) in
  hasId (optimisticId k) (messages s') = false
  /\ (length (messages s') < length (messages s))%nat
  /\ filter others (messages s') = filter others (messages s)
  /\ messages s' = filter others (messages s)
  /\ messageText s' = trim (messageText s0)
  /\ (exists pending, In pending (messages s1)
        /\ id pending = optimisticId k /\ body pending = messageText s')
  /\ sendingMessage s' = false
  /\ effectsOf (sendMessage_resume k (mkResponse d (Some msg)) s) = [Alert msg].
Proof.
  intros Hbegin Hin others s'.
  apply sendMessage_begin_some in Hbegin
    as (_ & _ & Hk & Hs1 & _).
  assert (Hm : messages s' = filter others (messages s)) by reflexivity.
  assert (Ht : messageText s' = trimmed k) by reflexivity.
  conjuncts; try reflexivity.
  - rewrite Hm. apply hasId_filter_out.
  - rewrite Hm. now apply filter_out_shorter.
  - rewrite Hm. apply filter_idem.
  - rewrite Ht, Hk. reflexivity.
  - exists (mkMessage (tempId now) iso (userId p) (trim (messageText s0))
                      (conversationId p)).
    rewrite Ht, Hk, Hs1. simpl. split; [|split; reflexivity].
    apply in_or_app. right. now left.
Qed.

Lemma send_failure_withdraws_witness :
  hasId (tempId 42) (messages hiSent) = true
  /\ messages (stateOf (sendMessage_resume hiCont
                          (mkResponse None (Some "rejected")) hiSent)) = []
  /\ messageText (stateOf (sendMessage_resume hiCont
                             (mkResponse None (Some "rejected")) hiSent)) = "hi".
Proof.
  split; [reflexivity|].
  pose proof (send_failure_withdraws props 42 "2024-01-01T00:00:00.000Z"
                hiTyped hiSent hiCont
                [InsertMessage "u1" "c1" "hi"] hiSent None "rejected"
                eq_refl eq_refl) as H.
  cbv zeta in H. destruct H as (_ & _ & _ & Hm & Ht & _).
  split; [exact Hm | exact Ht].
Defined.

(** C10. A load that fails leaves the timeline as it was: neither issuing
    the query nor receiving its error touches the messages, whichever run
    of the load effect the answer belongs to; the error is shown. *)
Theorem load_failure_keeps_timeline (p : Props) (w : World) (n : nat)
    (d : option (list Message)) (msg : string) :
  let r := mkResponse d (Some msg) in
  messages (ui (step p w (LoadSettled n r))) = messages (ui w)
  /\ messages (ui (run p w [PullRefresh; LoadSettled (loadRuns w) r]))
     = messages (ui w)
  /\ effects (run p w [PullRefresh; LoadSettled (loadRuns w) r])
     = effects w ++ [SelectMessages (conversationId p); Alert msg]
  /\ messages (ui (step p (mount p) (LoadSettled 0 r))) = []
  /\ loadingMessages (ui (step p (mount p) (LoadSettled 0 r))) = false.
Proof.
  intros r. conjuncts.
  - unfold step, perform_, perform, loadMessages_resume.
    destruct (isLive w n); reflexivity.
  - unfold run. simpl. unfold isLive. simpl. rewrite Nat.eqb_refl. reflexivity.
  - unfold run. simpl. unfold isLive. simpl. rewrite Nat.eqb_refl. simpl.
    now rewrite <- !app_assoc.
  - unfold mount, runChannelEffect. destruct (not_ (conversationId p)); reflexivity.
  - unfold mount, runChannelEffect. destruct (not_ (conversationId p)); reflexivity.
Qed.

(** *** The race between the push and the answer of the insert *)

Local Arguments countId : simpl never.
Local Arguments hasId : simpl never.
Local Arguments pendingCount : simpl never.

Lemma countId_app (i : Id) (l1 l2 : list Message) :
  countId i (l1 ++ l2) = (countId i l1 + countId i l2)%nat.
Proof. unfold countId. now rewrite filter_app, length_app. Qed.

Lemma hasId_false_count (i : Id) (l : list Message) :
  hasId i l = false <-> countId i l = 0%nat.
Proof.
  unfold hasId, countId. induction l as [|m l IH]; simpl; [tauto|].
  destruct (strictEq (id m) i); simpl; [split; discriminate | exact IH].
Qed.

(** Replacing the entries that carry [token] by [row] adds as many entries
    with the id of [row] as there were entries with [token]. *)
Lemma countId_replace (token : Id) (row : Message) (l : list Message) :
  strictEq (id row) token = false ->
  countId (id row)
          (map (fun message => if strictEq (id message) token then row else message) l)
  = (countId (id row) l + countId token l)%nat.
Proof.
  intros Hne. unfold countId.
  induction l as [|m l IH]; simpl; [reflexivity|].
  destruct (strictEq (id m) token) eqn:Et.
  - rewrite strictEq_refl. simpl. rewrite IH.
    apply strictEq_eq in Et.
    destruct (strictEq (id m) (id row)) eqn:Er; simpl; [|lia].
    apply strictEq_eq in Er. rewrite <- Er, Et, strictEq_refl in Hne.
    discriminate.
  - destruct (strictEq (id m) (id row)); simpl; rewrite IH; lia.
Qed.

(** The answer first, the push second: the push finds the row and does
    nothing, one entry carries the id. *)
Lemma confirm_then_push_single (k : SendCont) (row : Message) (s : State) :
  strictEq (id row) (optimisticId k) = false ->
  countId (optimisticId k) (messages s) = 1%nat ->
  hasId (id row) (messages s) = false ->
  countId (id row)
    (messages (stateOf (onInsert row (stateOf (sendMessage_resume k (ok row) s)))))
  = 1%nat.
Proof.
  intros Hne Hone Hnone. cbn.
  set (l' := map _ (messages s)).
  assert (Hc : countId (id row) l' = 1%nat).
  { unfold l'. rewrite countId_replace by exact Hne.
    apply hasId_false_count in Hnone. lia. }
  destruct (existsb _ l') eqn:E; [exact Hc|].
  change (hasId (id row) l' = false) in E.
  apply hasId_false_count in E. lia.
Qed.

(** The push first, the answer second: the continuation replaces the
    pending entry without looking for the row, two entries carry the id. *)
Lemma push_then_confirm_double (k : SendCont) (row : Message) (s : State) :
  strictEq (id row) (optimisticId k) = false ->
  countId (optimisticId k) (messages s) = 1%nat ->
  hasId (id row) (messages s) = false ->
  countId (id row)
    (messages (stateOf (sendMessage_resume k (ok row) (stateOf (onInsert row s)))))
  = 2%nat.
Proof.
  intros Hne Hone Hnone. cbn.
  change (existsb _ (messages s)) with (hasId (id row) (messages s)).
  rewrite Hnone, countId_replace by exact Hne.
  rewrite !countId_app. apply hasId_false_count in Hnone.
  unfold countId at 2 4. simpl. rewrite strictEq_refl, Hne. simpl. lia.
Qed.

(** C1. The push of the stored row arrives while the send is outstanding,
    then the insert answers with the same row: the timeline ends with two
    entries carrying the id of that row.  In the other order it ends with
    one. *)
Theorem push_then_confirm_duplicates :
  messages (ui (run props (mount props) pushFirst)) = [m1; m1]
  /\ countId (id m1) (messages (ui (run props (mount props) pushFirst))) = 2%nat
  /\ countId (id m1) (messages (ui (run props (mount props) confirmFirst))) = 1%nat.
Proof. conjuncts; reflexivity. Qed.

(** *** Deactivation *)

(** The answer of a load that was issued before the cleanup is dropped. *)
Lemma load_after_close_discarded (p : Props) (w : World) (n : nat)
    (r : Response (list Message)) :
  ui (step p (step p w Deactivate) (LoadSettled n r)) = ui (step p w Deactivate).
Proof. reflexivity. Qed.

(** No pushed row reaches the handler once the channel is removed. *)
Lemma push_after_close_discarded (p : Props) (w : World) (m : Message) :
  step p (step p w Deactivate) (Pushed m) = step p w Deactivate.
Proof. reflexivity. Qed.

(** *** Order of the snapshot *)

Lemma spec_sorted_app_last (l : list Message) (m : Message) :
  spec_sorted (l ++ [m])
  = spec_sorted l
    && match last (map Some l) None with
       | Some z => spec_before z m
       | None => true
       end.
Proof.
  induction l as [|a l IH]; [reflexivity|].
  destruct l as [|b l]; [simpl; now rewrite andb_true_r|].
  change (spec_sorted ((a :: b :: l) ++ [m]))
    with (spec_before a b && spec_sorted ((b :: l) ++ [m])).
  rewrite IH.
  change (spec_sorted (a :: b :: l)) with (spec_before a b && spec_sorted (b :: l)).
  change (last (map Some (a :: b :: l)) None) with (last (map Some (b :: l)) None).
  now rewrite andb_assoc.
Qed.

(** A pushed row that is new to the timeline and sorts before its last
    entry leaves the snapshot unsorted, whatever was there. *)
Lemma push_before_last_unsorts (p : Props) (w : World) (m z : Message) :
  channel w = true ->
  hasId (id m) (messages (ui w)) = false ->
  last (map Some (messages (ui w))) None = Some z ->
  spec_before z m = false ->
  spec_sorted (messages (ui (step p w (Pushed m)))) = false.
Proof.
  intros Hc Hnew Hlast Hbefore.
  assert (Hm : messages (ui (step p w (Pushed m))) = messages (ui w) ++ [m]).
  { unfold step, perform_, perform, onInsert, setMessages. rewrite Hc.
    unfold hasId in Hnew. cbn. now rewrite Hnew. }
  rewrite Hm, spec_sorted_app_last, Hlast, Hbefore. apply andb_false_r.
Qed.

(** Not every run leaves the snapshot sorted by created-at. *)
Lemma push_breaks_order :
  ~ (forall es : list Event,
       spec_sorted (messages (ui (run props (mount props) es))) = true).
Proof.
  intros H. specialize (H olderPushed). vm_compute in H. discriminate.
Qed.

(** C2. Two rows are written one millisecond apart and their pushes arrive
    in the other order: the INSERT handler appends each at the end, so the
    snapshot shows the later row above the earlier one and is not sorted by
    created-at.  A refresh, whose query is ordered by created-at, then
    shows the same two rows in the other order. *)
Theorem crossed_pushes_stay_crossed :
  messages (ui (run props (mount props) crossedPushes))
  = [writtenSecond; writtenFirst]
  /\ spec_before writtenSecond writtenFirst = false
  /\ spec_sorted (messages (ui (run props (mount props) crossedPushes))) = false
  /\ messages (ui (run props (mount props) crossedThenRefreshed))
     = [writtenFirst; writtenSecond]
  /\ spec_sorted (messages (ui (run props (mount props) crossedThenRefreshed)))
     = true.
Proof. conjuncts; vm_compute; reflexivity. Qed.

(** *** Pending entries in reachable states *)

Lemma pendingCount_none (l : list Message) :
  (forall m, In m l -> isPending m = false) -> pendingCount l = 0%nat.
Proof.
  unfold pendingCount. induction l as [|a l IH]; simpl; [reflexivity|].
  intros H. rewrite (H a) by now left.
  apply IH. intros m Hm. apply H. now right.
Qed.

Lemma pendingCount_zero (l : list Message) (m : Message) :
  pendingCount l = 0%nat -> In m l -> isPending m = false.
Proof.
  unfold pendingCount. induction l as [|a l IH]; simpl; [tauto|].
  destruct (isPending a) eqn:E; simpl; [discriminate|].
  intros H [->|Hin]; [exact E | now apply IH].
Qed.

Lemma pendingCount_app (l1 l2 : list Message) :
  pendingCount (l1 ++ l2) = (pendingCount l1 + pendingCount l2)%nat.
Proof. unfold pendingCount. now rewrite filter_app, length_app. Qed.

Lemma confirmed_not_pending (m : Message) :
  isConfirmed m = true -> isPending m = false.
Proof.
  unfold isConfirmed, isServerId, isPending. now destruct (isTemp (id m)).
Qed.

(** With no send suspended, nothing in the timeline is pending. *)
Lemma Inv_idle (s : State) : Inv s None -> pendingCount (messages s) = 0%nat.
Proof.
  intros I. apply pendingCount_none. intros m Hm.
  destruct (isPending m) eqn:E; [|reflexivity].
  destruct (inv_pending _ _ I m Hm E) as (k & Hk & _). discriminate.
Qed.

(** An invariant state with no pending entry left and the flag lowered. *)
Lemma Inv_settled (s : State) :
  sendingMessage s = false ->
  (forall m, In m (messages s) -> isPending m = false) ->
  Inv s None.
Proof.
  intros Hf Hnone. constructor.
  - exact Hf.
  - discriminate.
  - intros m Hm Hp. rewrite (Hnone m Hm) in Hp. discriminate.
  - rewrite pendingCount_none by exact Hnone. lia.
Qed.

(** The invariant only looks at the messages and the flag. *)
Lemma Inv_same (s s' : State) (f : option SendCont) :
  messages s' = messages s -> sendingMessage s' = sendingMessage s ->
  Inv s f -> Inv s' f.
Proof.
  intros Hm Hs [I1 I2 I3 I4]. constructor; rewrite ?Hm, ?Hs; assumption.
Qed.

Lemma sendMessage_begin_none (p : Props) (now : Z) (iso : string)
    (s s1 : State) (out : list Effect) :
  sendMessage_begin p now iso s = (None, s1, out) -> s1 = s /\ out = [].
Proof.
  unfold sendMessage_begin.
  destruct (not_ (trim (messageText s))); [intros H; now inversion H|].
  destruct (sendingMessage s); [intros H; now inversion H|].
  cbn. discriminate.
Qed.

Lemma Inv_mount (p : Props) : Inv (ui (mount p)) (inflight (mount p)).
Proof.
  assert (Hm : messages (ui (mount p)) = []
               /\ sendingMessage (ui (mount p)) = false
               /\ inflight (mount p) = None).
  { unfold mount, runChannelEffect. destruct (not_ (conversationId p)); now cbn. }
  destruct Hm as (Hm & Hs & Hf). rewrite Hf.
  apply Inv_settled; [exact Hs|]. rewrite Hm. intros m [].
Qed.

Lemma Inv_press (p : Props) (now : Z) (iso : string) (w : World) :
  Inv (ui w) (inflight w) ->
  Inv (ui (step p w (PressSend now iso))) (inflight (step p w (PressSend now iso))).
Proof.
  intros I. unfold step, perform.
  destruct (sendMessage_begin p now iso (ui w)) as [[k s1] out] eqn:E.
  destruct k as [cont|]; simpl.
  - apply sendMessage_begin_some in E as (_ & Hs & Hk & Hs1 & _).
    assert (Hidle : inflight w = None).
    { pose proof (inv_flag _ _ I) as Hf. rewrite Hs in Hf.
      destruct (inflight w); [discriminate | reflexivity]. }
    rewrite Hidle in I. pose proof (Inv_idle _ I) as H0.
    subst s1 cont. constructor; simpl.
    + reflexivity.
    + intros k Hk. inversion Hk. reflexivity.
    + intros m Hm Hp. eexists. split; [reflexivity|]. simpl.
      apply in_app_or in Hm as [Hm|[<-|[]]]; [|reflexivity].
      rewrite (pendingCount_zero _ m H0 Hm) in Hp. discriminate.
    + rewrite pendingCount_app, H0. reflexivity.
  - apply sendMessage_begin_none in E as [-> _]. exact I.
Qed.

Lemma Inv_insert_settled (p : Props) (r : Response Message) (w : World) :
  fromBackend (InsertSettled r) = true ->
  Inv (ui w) (inflight w) ->
  Inv (ui (step p w (InsertSettled r))) (inflight (step p w (InsertSettled r))).
Proof.
  intros Hb I. unfold step.
  destruct (inflight w) as [cont|] eqn:Hf; [|now rewrite Hf].
  simpl in Hb. apply andb_true_iff in Hb as [Hset Hrow].
  unfold perform_, perform, sendMessage_resume. unfold settled in Hset.
  assert (Hother : forall m, In m (messages (ui w)) ->
                   strictEq (id m) (optimisticId cont) = false ->
                   isPending m = false).
  { intros m Hm Hne. destruct (isPending m) eqn:Hp; [|reflexivity].
    destruct (inv_pending _ _ I m Hm Hp) as (k & Hk & Hid).
    inversion Hk. subst k. rewrite Hid, strictEq_refl in Hne. discriminate. }
  destruct (error r) as [msg|] eqn:He.
  - cbn. apply Inv_settled; [reflexivity|]. cbn.
    intros m Hm. apply filter_In in Hm as [Hm Hne].
    apply Hother; [exact Hm|]. now apply negb_true_iff.
  - destruct (data r) as [row|] eqn:Hd; [|discriminate].
    cbn. apply Inv_settled; [reflexivity|]. cbn.
    intros m Hm. apply in_map_iff in Hm as (x & Hx & Hin).
    destruct (strictEq (id x) (optimisticId cont)) eqn:E.
    + subst m. now apply confirmed_not_pending.
    + subst m. now apply Hother.
Qed.

Lemma Inv_pushed (p : Props) (m : Message) (w : World) :
  fromBackend (Pushed m) = true ->
  Inv (ui w) (inflight w) ->
  Inv (ui (step p w (Pushed m))) (inflight (step p w (Pushed m))).
Proof.
  intros Hb I. simpl in Hb. apply confirmed_not_pending in Hb.
  unfold step. destruct (channel w); [|exact I].
  unfold perform_, perform, onInsert. cbn.
  destruct (existsb _ (messages (ui w))).
  - eapply Inv_same; [| |exact I]; reflexivity.
  - destruct I as [I1 I2 I3 I4]. constructor; cbn.
    + exact I1.
    + exact I2.
    + intros x Hx Hp. apply in_app_or in Hx as [Hx|[<-|[]]].
      * now apply I3.
      * rewrite Hb in Hp. discriminate.
    + rewrite pendingCount_app. unfold pendingCount at 2. simpl.
      rewrite Hb. simpl. lia.
Qed.

Lemma Inv_load_settled (p : Props) (n : nat) (r : Response (list Message))
    (w : World) :
  fromBackend (LoadSettled n r) = true ->
  Inv (ui w) (inflight w) ->
  Inv (ui (step p w (LoadSettled n r))) (inflight (step p w (LoadSettled n r))).
Proof.
  intros Hb I. simpl in Hb.
  unfold step, perform_, perform, loadMessages_resume.
  destruct (isLive w n); [|exact I]. simpl negb. cbv iota.
  destruct (error r) as [msg|].
  - eapply Inv_same; [| |exact I]; reflexivity.
  - cbn. destruct I as [I1 I2 I3 I4].
    assert (Hrows : forall m,
               In m (match data r with Some rows => rows | None => [] end) ->
               isPending m = false).
    { intros m Hm. destruct (data r) as [rows|]; [|destruct Hm].
      rewrite forallb_forall in Hb. apply confirmed_not_pending. now apply Hb. }
    constructor; cbn.
    + exact I1.
    + exact I2.
    + intros m Hm Hp. rewrite (Hrows m Hm) in Hp. discriminate.
    + rewrite pendingCount_none by exact Hrows. lia.
Qed.

Lemma Inv_step (p : Props) (e : Event) (w : World) :
  fromBackend e = true ->
  Inv (ui w) (inflight w) ->
  Inv (ui (step p w e)) (inflight (step p w e)).
Proof.
  intros Hb I. destruct e as [text|now iso|r|m| |n r| ].
  - unfold step. destruct (sendingMessage (ui w)); [exact I|].
    eapply Inv_same; [| |exact I]; reflexivity.
  - now apply Inv_press.
  - now apply Inv_insert_settled.
  - now apply Inv_pushed.
  - eapply Inv_same; [| |exact I]; reflexivity.
  - now apply Inv_load_settled.
  - exact I.
Qed.

Lemma Inv_run (p : Props) (es : list Event) (w : World) :
  forallb fromBackend es = true ->
  Inv (ui w) (inflight w) ->
  Inv (ui (run p w es)) (inflight (run p w es)).
Proof.
  revert w. induction es as [|e es IH]; intros w Hb I; [exact I|].
  simpl in Hb. apply andb_true_iff in Hb as [He Hes].
  simpl. apply IH; [exact Hes|]. now apply Inv_step.
Qed.

Lemma pending_differs_from_confirmed (a b : Id) :
  isTemp a = true -> isServerId b = true ->
  strictEq a b = false /\ strictEq b a = false.
Proof.
  intros Ha Hb. unfold isServerId in Hb. apply negb_true_iff in Hb.
  assert (Hne : a <> b) by (intros ->; congruence).
  split.
  - destruct (strictEq a b) eqn:E; [|reflexivity].
    apply strictEq_eq in E. contradiction.
  - destruct (strictEq b a) eqn:E; [|reflexivity].
    apply strictEq_eq in E. now symmetry in E.
Qed.

(** The presence test of the INSERT handler, asked about a backend row,
    is decided by the confirmed entries alone. *)
Lemma presence_ignores_pending (row : Message) (l : list Message) :
  isConfirmed row = true ->
  hasId (id row) l = hasId (id row) (filter isConfirmed l).
Proof.
  intros Hrow. unfold hasId.
  induction l as [|x l IH]; simpl; [reflexivity|].
  destruct (isConfirmed x) eqn:Hx; simpl; [now rewrite IH|].
  assert (Hp : isTemp (id x) = true).
  { unfold isConfirmed, isServerId in Hx. now apply negb_false_iff in Hx. }
  destruct (pending_differs_from_confirmed _ _ Hp Hrow) as [-> _].
  exact IH.
Qed.

(** C6. Let the backend hand out ids that are numbers or strings not
    starting with ["temp-"].  Then in every state the instance reaches, the
    pending entries of the timeline carry the token of the suspended send,
    which is a ["temp-"] id; that token matches no confirmed entry; the
    [===] test between the id of a pending entry and the id of a confirmed
    one is false in both directions; and the presence test for a backend
    row never matches a pending entry. *)
Theorem pending_identity_never_collides (p : Props) (es : list Event) :
  forallb fromBackend es = true ->
  let w := run p (mount p) es in
  (forall m, In m (messages (ui w)) -> isPending m = true ->
     exists k, inflight w = Some k /\ id m = optimisticId k)
  /\ (forall k, inflight w = Some k ->
        isTemp (optimisticId k) = true
        /\ hasId (optimisticId k) (filter isConfirmed (messages (ui w))) = false)
  /\ (forall a b, In a (messages (ui w)) -> In b (messages (ui w)) ->
        isPending a = true -> isConfirmed b = true ->
        strictEq (id a) (id b) = false /\ strictEq (id b) (id a) = false)
  /\ (forall row, isConfirmed row = true ->
        hasId (id row) (messages (ui w))
        = hasId (id row) (filter isConfirmed (messages (ui w)))).
Proof.
  intros Hb w.
  pose proof (Inv_run p es (mount p) Hb (Inv_mount p)) as I. fold w in I.
  conjuncts.
  - exact (inv_pending _ _ I).
  - intros k Hk. pose proof (inv_token _ _ I k Hk) as Ht.
    split; [exact Ht|].
    unfold hasId. destruct (existsb _ _) eqn:E; [|reflexivity].
    apply existsb_exists in E as (x & Hx & Heq).
    apply filter_In in Hx as [_ Hc].
    destruct (pending_differs_from_confirmed _ _ Ht Hc) as [_ Hne].
    unfold isConfirmed in Hc. congruence.
  - intros a b _ _ Ha Hc. now apply pending_differs_from_confirmed.
  - intros row Hrow. now apply presence_ignores_pending.
Qed.

Lemma pending_identity_never_collides_witness :
  forallb fromBackend (sending ++ [Pushed m1]) = true
  /\ forall a b,
       In a (messages (ui (run props (mount props) (sending ++ [Pushed m1])))) ->
       In b (messages (ui (run props (mount props) (sending ++ [Pushed m1])))) ->
       isPending a = true -> isConfirmed b = true ->
       strictEq (id a) (id b) = false /\ strictEq (id b) (id a) = false.
Proof.
  split; [reflexivity|].
  apply (pending_identity_never_collides props (sending ++ [Pushed m1])).
  reflexivity.
Defined.

(** C9. With backend ids as above and inserts answered by a row or an
    error, every reachable timeline holds at most one pending entry, and
    none while the sending flag is down; while the flag is up a further
    press of the send button changes nothing; and when the answer of the
    outstanding insert lowers the flag, no pending entry is left. *)
Theorem at_most_one_pending (p : Props) (es : list Event) :
  forallb fromBackend es = true ->
  let w := run p (mount p) es in
  (pendingCount (messages (ui w)) <= 1)%nat
  /\ (sendingMessage (ui w) = false -> pendingCount (messages (ui w)) = 0%nat)
  /\ (sendingMessage (ui w) = true ->
        forall now iso, step p w (PressSend now iso) = w)
  /\ (sendingMessage (ui w) = true ->
        forall r, fromBackend (InsertSettled r) = true ->
          sendingMessage (ui (step p w (InsertSettled r))) = false
          /\ pendingCount (messages (ui (step p w (InsertSettled r)))) = 0%nat).
Proof.
  intros Hb w.
  pose proof (Inv_run p es (mount p) Hb (Inv_mount p)) as I. fold w in I.
  conjuncts.
  - exact (inv_count _ _ I).
  - intros Hs. pose proof (inv_flag _ _ I) as Hf. rewrite Hs in Hf.
    destruct (inflight w) eqn:E; [discriminate|]. now apply Inv_idle.
  - intros Hs now iso. unfold step, perform, sendMessage_begin.
    rewrite Hs. destruct (not_ (trim (messageText (ui w))));
      cbn; rewrite app_nil_r; apply world_eta.
  - intros Hs r Hr.
    pose proof (inv_flag _ _ I) as Hf. rewrite Hs in Hf.
    destruct (inflight w) as [cont|] eqn:E; [|discriminate].
    assert (Hnone : inflight (step p w (InsertSettled r)) = None).
    { unfold step. now rewrite E. }
    split.
    + unfold step. rewrite E. unfold perform_, perform, sendMessage_resume.
      destruct (error r); [reflexivity|]. destruct (data r); reflexivity.
    + pose proof (Inv_insert_settled p r w Hr) as I'.
      rewrite E in I'. specialize (I' I). rewrite Hnone in I'.
      now apply Inv_idle.
Qed.

Lemma at_most_one_pending_witness :
  forallb fromBackend exchange = true
  /\ (pendingCount (messages (ui (run props (mount props) exchange))) <= 1)%nat.
Proof.
  split; [reflexivity|].
  apply (at_most_one_pending props exchange). reflexivity.
Defined.

End ThreadFacts.

(* ================================================================== *)
(** ** The resolver of [ChatList] *)

Module ChatListFacts.
Import Js ChatList ResolverScenario.

Lemma member_eta (r : Member) : mkMember (conversation_id r) (user_id r) = r.
Proof. now destruct r. Qed.

Lemma selectMemberships_In (db : Db) (u c : string) :
  In c (selectMemberships db u) <-> In (mkMember c u) (conversation_members db).
Proof.
  unfold selectMemberships. rewrite in_map_iff. split.
  - intros (r & <- & Hr). apply filter_In in Hr as [Hr Hu].
    apply String.eqb_eq in Hu. rewrite <- Hu. now rewrite member_eta.
  - intros H. exists (mkMember c u). split; [reflexivity|].
    apply filter_In. split; [exact H|]. apply String.eqb_refl.
Qed.

Lemma existsb_eqb_In (c : string) (l : list string) :
  existsb (String.eqb c) l = true <-> In c l.
Proof.
  rewrite existsb_exists. split.
  - intros (x & Hx & E). apply String.eqb_eq in E. now subst.
  - intros H. exists c. split; [exact H | apply String.eqb_refl].
Qed.

(** A row is selected when it belongs to [other] and its conversation is
    one of [self]. *)
Lemma sharedRows_In (db : Db) (self other : string) (r : Member) :
  In r (sharedRows db self other)
  <-> In r (conversation_members db) /\ user_id r = other
      /\ In (mkMember (conversation_id r) self) (conversation_members db).
Proof.
  unfold sharedRows. rewrite filter_In, andb_true_iff, String.eqb_eq,
    existsb_eqb_In, selectMemberships_In. tauto.
Qed.

Lemma selectShared_rows (db : Db) (self other : string) :
  selectShared db other (selectMemberships db self)
  = map conversation_id (firstn 1 (sharedRows db self other)).
Proof. reflexivity. Qed.

(** The lookup found [c]: both users are members of [c]. *)
Lemma lookup_found (env : Backend) (self : string) (profile : Profile)
    (db : Db) (c : string) (asked : list Request) :
  lookupShared env self profile db = (inr (Some c), asked) ->
  exists r rest, sharedRows db self (id profile) = r :: rest
                 /\ conversation_id r = c
                 /\ asked = [SelectMemberships self;
                             SelectShared (id profile) (selectMemberships db self)].
Proof.
  unfold lookupShared. destruct (membershipError env); [discriminate|].
  destruct (selectMemberships db self) as [|x ids] eqn:Hids; [discriminate|].
  destruct (sharedError env); [discriminate|].
  rewrite <- Hids, selectShared_rows.
  destruct (sharedRows db self (id profile)) as [|r rest]; [discriminate|].
  simpl. intros H. inversion H. now exists r, rest.
Qed.

(** The lookup found nothing: the two users share no conversation. *)
Lemma lookup_none (env : Backend) (self : string) (profile : Profile)
    (db : Db) (asked : list Request) :
  lookupShared env self profile db = (inr None, asked) ->
  sharedRows db self (id profile) = [].
Proof.
  unfold lookupShared. destruct (membershipError env); [discriminate|].
  destruct (selectMemberships db self) as [|x ids] eqn:Hids.
  - intros _. unfold sharedRows. rewrite Hids.
    induction (conversation_members db) as [|r l IH]; simpl; [reflexivity|].
    now rewrite andb_false_r.
  - destruct (sharedError env); [discriminate|].
    rewrite <- Hids, selectShared_rows.
    destruct (sharedRows db self (id profile)) as [|r rest]; [reflexivity|].
    discriminate.
Qed.

(** With both queries answered, a non-empty selection is found. *)
Lemma lookup_finds (env : Backend) (self : string) (profile : Profile)
    (db : Db) (r : Member) (rest : list Member) :
  quiet env = true ->
  sharedRows db self (id profile) = r :: rest ->
  lookupShared env self profile db
  = (inr (Some (conversation_id r)),
     [SelectMemberships self;
      SelectShared (id profile) (selectMemberships db self)]).
Proof.
  unfold quiet, lookupShared. intros Hq Hrows.
  destruct (membershipError env); [discriminate|].
  destruct (sharedError env); [discriminate|].
  destruct (selectMemberships db self) as [|x ids] eqn:Hids.
  - exfalso. assert (Hin : In r (sharedRows db self (id profile)))
      by (rewrite Hrows; now left).
    apply sharedRows_In in Hin as (_ & _ & Hc).
    apply selectMemberships_In in Hc. rewrite Hids in Hc. destruct Hc.
  - rewrite <- Hids, selectShared_rows, Hrows. reflexivity.
Qed.

Lemma no_shared (db : Db) (a b c : string) :
  sharedRows db a b = [] ->
  In (mkMember c a) (conversation_members db) ->
  In (mkMember c b) (conversation_members db) -> False.
Proof.
  intros Hnone Ha Hb.
  assert (Hin : In (mkMember c b) (sharedRows db a b)).
  { apply sharedRows_In. simpl. auto. }
  rewrite Hnone in Hin. destruct Hin.
Qed.

(** Once the conversation [c] and its two membership rows are stored, the
    shared-conversation query selects rows of [c] only, and at least one,
    whichever of the two users asks. *)
Lemma created_is_found (db : Db) (a b c u v : string) :
  sharedRows db a b = [] ->
  (u = a /\ v = b) \/ (u = b /\ v = a) ->
  exists r rest,
    sharedRows (insertMembers (insertConversation db c)
                              [mkMember c a; mkMember c b]) u v = r :: rest
    /\ conversation_id r = c.
Proof.
  intros Hnone Huv.
  set (db1 := insertMembers (insertConversation db c) [mkMember c a; mkMember c b]).
  assert (Hnew : forall x, In x (conversation_members db1) <->
                 In x (conversation_members db) \/ x = mkMember c a \/ x = mkMember c b).
  { intros x. unfold db1. simpl. rewrite in_app_iff. simpl.
    intuition congruence. }
  assert (Hall : forall r, In r (sharedRows db1 u v) -> conversation_id r = c).
  { intros r Hr. apply sharedRows_In in Hr as (Hr & Hv & Hu).
    apply Hnew in Hr. apply Hnew in Hu.
    destruct Hr as [Hr|[->| ->]]; [|reflexivity|reflexivity].
    destruct Hu as [Hu|[Hu|Hu]]; [|now inversion Hu|now inversion Hu].
    exfalso. rewrite <- (member_eta r), Hv in Hr.
    destruct Huv as [[-> ->]|[-> ->]];
      now apply (no_shared db a b (conversation_id r) Hnone). }
  assert (Hone : In (mkMember c v) (sharedRows db1 u v)).
  { apply sharedRows_In. cbn [conversation_id user_id]. rewrite !Hnew.
    destruct Huv as [[-> ->]|[-> ->]]; auto. }
  destruct (sharedRows db1 u v) as [|r rest]; [destruct Hone|].
  exists r, rest. split; [reflexivity|]. apply Hall. now left.
Qed.

(** What a call that ends in the thread screen left behind: it found the
    conversation, or it stored a new one with its two rows. *)
Lemma navigated_cases (env : Backend) (a : string) (pb : Profile) (db db1 : Db)
    (params : ChatThreadParams) (asked : list Request) :
  openConversation env a pb db = (Navigated params, db1, asked) ->
  exists c, params = paramsFor a c pb
    /\ ((db1 = db /\ exists r rest, sharedRows db a (id pb) = r :: rest
                                    /\ conversation_id r = c)
        \/ (db1 = insertMembers (insertConversation db c)
                                [mkMember c a; mkMember c (id pb)]
            /\ sharedRows db a (id pb) = [])).
Proof.
  unfold openConversation.
  destruct (lookupShared env a pb db) as [[msg|[c|]] asked0] eqn:E.
  - discriminate.
  - intros H. inversion H. subst. exists c. split; [reflexivity|]. left.
    split; [reflexivity|].
    apply lookup_found in E as (r & rest & Hrows & Hc & _). now exists r, rest.
  - destruct (error (conversationInsert env)); [discriminate|].
    destruct (data (conversationInsert env)) as [c|]; [|discriminate].
    destruct (memberInsertError env); [discriminate|].
    intros H. inversion H. subst. exists c. split; [reflexivity|]. right.
    split; [reflexivity|]. now apply lookup_none in E.
Qed.

(** A quiet call on tables where the selection is non-empty navigates to
    the conversation of the first selected row and writes nothing. *)
Lemma finds_without_writing (env : Backend) (a : string) (pb : Profile) (db : Db)
    (r : Member) (rest : list Member) :
  quiet env = true ->
  sharedRows db a (id pb) = r :: rest ->
  openConversation env a pb db
  = (Navigated (paramsFor a (conversation_id r) pb), db,
     [SelectMemberships a; SelectShared (id pb) (selectMemberships db a)]).
Proof.
  intros Hq Hrows. unfold openConversation.
  now rewrite (lookup_finds env a pb db r rest Hq Hrows).
Qed.

(** C3. After a call of [openConversation] for a pair of users has reached
    the thread screen, a second call for the same pair whose two queries
    are answered reaches it with the same parameters, hence the same
    conversation id; it gets there through the two membership queries
    alone, requests no insert and leaves both tables as they were. *)
Theorem resolve_is_idempotent (env1 env2 : Backend) (a : string) (pb : Profile)
    (db db1 : Db) (params : ChatThreadParams) (asked1 : list Request) :
  openConversation env1 a pb db = (Navigated params, db1, asked1) ->
  quiet env2 = true ->
  openConversation env2 a pb db1
  = (Navigated params, db1,
     [SelectMemberships a; SelectShared (id pb) (selectMemberships db1 a)])
  /\ resolved (fst (fst (openConversation env2 a pb db1)))
     = resolved (Navigated params)
  /\ existsb isInsert (snd (openConversation env2 a pb db1)) = false.
Proof.
  intros H1 Hq.
  apply navigated_cases in H1 as (c & -> & Hcase).
  assert (Hrows : exists r rest, sharedRows db1 a (id pb) = r :: rest
                                 /\ conversation_id r = c).
  { destruct Hcase as [[-> Hfound]|[-> Hnone]]; [exact Hfound|].
    apply created_is_found; [exact Hnone | now left]. }
  destruct Hrows as (r & rest & Hrows & <-).
  rewrite (finds_without_writing env2 a pb db1 r rest Hq Hrows).
  conjuncts; reflexivity.
Qed.

Lemma resolve_is_idempotent_witness :
  openConversation healthy "u1" bob before
  = (Navigated (paramsFor "u1" "c9" bob), after,
     [SelectMemberships "u1"; SelectShared "u2" ["c1"]; InsertConversation;
      InsertMembers [mkMember "c9" "u1"; mkMember "c9" "u2"]])
  /\ openConversation healthy "u1" bob after
     = (Navigated (paramsFor "u1" "c9" bob), after,
        [SelectMemberships "u1"; SelectShared "u2" ["c1"; "c9"]]).
Proof.
  split; [reflexivity|].
  apply (resolve_is_idempotent healthy healthy "u1" bob before after
           (paramsFor "u1" "c9" bob)
           [SelectMemberships "u1"; SelectShared "u2" ["c1"]; InsertConversation;
            InsertMembers [mkMember "c9" "u1"; mkMember "c9" "u2"]]);
    reflexivity.
Defined.

(** *** Commutativity *)

Lemma membersOf_In (db : Db) (c u : string) :
  In u (membersOf db c) <-> In (mkMember c u) (conversation_members db).
Proof.
  unfold membersOf. rewrite in_map_iff. split.
  - intros (r & <- & Hr). apply filter_In in Hr as [Hr Hc].
    apply String.eqb_eq in Hc. rewrite <- Hc. now rewrite member_eta.
  - intros H. exists (mkMember c u). split; [reflexivity|].
    apply filter_In. split; [exact H | apply String.eqb_refl].
Qed.

(** In two-party tables a conversation that has [a] and [b] among its
    members has nobody else. *)
Lemma shared_is_pair (db : Db) (a b c : string) :
  twoParty db = true -> a <> b ->
  In (mkMember c a) (conversation_members db) ->
  In (mkMember c b) (conversation_members db) ->
  isPair db a b c = true.
Proof.
  intros Htwo Hab Ha Hb. unfold isPair.
  rewrite !andb_true_iff, !existsb_eqb_In, !membersOf_In.
  split; [split|]; [|exact Ha|exact Hb].
  apply forallb_forall. intros u Hu.
  destruct (String.eqb_spec u a) as [|Hua]; [reflexivity|].
  destruct (String.eqb_spec u b) as [|Hub]; [reflexivity|].
  exfalso. unfold twoParty in Htwo. rewrite forallb_forall in Htwo.
  specialize (Htwo _ Ha). apply Nat.leb_le in Htwo. simpl in Htwo.
  assert (Hthree : (length [a; b; u] <= length (nodup string_dec (membersOf db c)))%nat).
  { apply NoDup_incl_length.
    - repeat constructor; simpl; intuition congruence.
    - intros x [<-|[<-|[<-|[]]]]; apply nodup_In; try exact Hu;
        now apply membersOf_In. }
  simpl in Hthree. lia.
Qed.

(** Under the two invariants, two distinct users share at most one
    conversation. *)
Lemma shared_is_unique (db : Db) (a b c c' : string) :
  twoParty db = true -> uniquePair db a b = true -> a <> b ->
  In (mkMember c a) (conversation_members db) ->
  In (mkMember c b) (conversation_members db) ->
  In (mkMember c' a) (conversation_members db) ->
  In (mkMember c' b) (conversation_members db) ->
  c = c'.
Proof.
  intros Htwo Huniq Hab Ha Hb Ha' Hb'.
  destruct (string_dec c c') as [|Hne]; [assumption|exfalso].
  unfold uniquePair in Huniq. apply Nat.leb_le in Huniq.
  set (pairs := filter (isPair db a b)
                       (map conversation_id (conversation_members db))) in Huniq.
  assert (Hin : forall x, In (mkMember x a) (conversation_members db) ->
                          In (mkMember x b) (conversation_members db) ->
                          In x (nodup string_dec pairs)).
  { intros x Hxa Hxb. apply nodup_In, filter_In. split.
    - apply in_map_iff. now exists (mkMember x a).
    - now apply shared_is_pair. }
  assert (Htwo' : (length [c; c'] <= length (nodup string_dec pairs))%nat).
  { apply NoDup_incl_length.
    - repeat constructor; simpl; intuition congruence.
    - intros x [<-|[<-|[]]]; now apply Hin. }
  simpl in Htwo'. lia.
Qed.

(** C4. Let the tables hold two-party conversations only, at most one of
    them with membership set exactly {A, B}, A and B distinct.  After
    [openConversation] called by A for B has reached the thread screen, the
    call by B for A, its two queries answered, reaches it with the same
    conversation id, and writes nothing. *)
Theorem resolve_is_commutative (env1 env2 : Backend) (pa pb : Profile)
    (db db1 : Db) (params : ChatThreadParams) (asked1 : list Request) :
  String.eqb (id pa) (id pb) = false ->
  twoParty db = true ->
  uniquePair db (id pa) (id pb) = true ->
  openConversation env1 (id pa) pb db = (Navigated params, db1, asked1) ->
  quiet env2 = true ->
  openConversation env2 (id pb) pa db1
  = (Navigated (paramsFor (id pb) (conversationId params) pa), db1,
     [SelectMemberships (id pb);
      SelectShared (id pa) (selectMemberships db1 (id pb))])
  /\ resolved (fst (fst (openConversation env2 (id pb) pa db1)))
     = resolved (fst (fst (openConversation env1 (id pa) pb db))).
Proof.
  intros Hab Htwo Huniq H1 Hq. apply String.eqb_neq in Hab.
  rewrite H1. apply navigated_cases in H1 as (c & -> & Hcase).
  assert (Hrows : exists r rest, sharedRows db1 (id pb) (id pa) = r :: rest
                                 /\ conversation_id r = c).
  { destruct Hcase as [[-> (r & rest & Hrows & Hc)]|[-> Hnone]].
    - assert (Hr : In r (sharedRows db (id pa) (id pb)))
        by (rewrite Hrows; now left).
      apply sharedRows_In in Hr as (Hr & Hu & Hself).
      rewrite <- (member_eta r), Hu, Hc in Hr. rewrite Hc in Hself.
      assert (Hback : In (mkMember c (id pa)) (sharedRows db (id pb) (id pa))).
      { apply sharedRows_In. simpl. auto. }
      destruct (sharedRows db (id pb) (id pa)) as [|r' rest'] eqn:E;
        [destruct Hback|].
      exists r', rest'. split; [reflexivity|].
      assert (Hr' : In r' (sharedRows db (id pb) (id pa)))
        by (rewrite E; now left).
      apply sharedRows_In in Hr' as (Hr' & Hu' & Hself').
      rewrite <- (member_eta r'), Hu' in Hr'.
      now apply (shared_is_unique db (id pa) (id pb) (conversation_id r') c).
    - apply created_is_found; [exact Hnone | now right]. }
  destruct Hrows as (r & rest & Hrows & <-).
  rewrite (finds_without_writing env2 (id pb) pa db1 r rest Hq Hrows).
  split; reflexivity.
Qed.

Lemma resolve_is_commutative_witness :
  String.eqb (id ann) (id bob) = false
  /\ twoParty after = true
  /\ uniquePair after (id ann) (id bob) = true
  /\ resolved (fst (fst (openConversation healthy (id bob) ann after)))
     = resolved (fst (fst (openConversation healthy (id ann) bob after))).
Proof.
  split; [reflexivity|]. split; [reflexivity|]. split; [reflexivity|].
  apply (resolve_is_commutative healthy healthy ann bob after after
           (paramsFor "u1" "c9" bob)
           [SelectMemberships "u1"; SelectShared "u2" ["c1"; "c9"]]);
    reflexivity.
Defined.

End ChatListFacts.

(* ================================================================== *)
(** ** More about [trim] *)

Module TrimFacts.
Import Js JsFacts.

Lemma trimStart_fixed (s : string) :
  match s with
  | EmptyString => True
  | String c _ => isWhiteSpace c = false
  end -> trimStart s = s.
Proof. destruct s as [|c rest]; simpl; [reflexivity|]. now intros ->. Qed.

(** What [trimStart] returns is empty or starts with a visible unit. *)
Lemma trimStart_head (s : string) :
  match trimStart s with
  | EmptyString => True
  | String c _ => isWhiteSpace c = false
  end.
Proof.
  induction s as [|c rest IH]; simpl; [exact I|].
  destruct (isWhiteSpace c) eqn:E; [exact IH | exact E].
Qed.

(** [trimEnd] keeps the first unit of whatever it keeps. *)
Lemma trimEnd_head (s : string) :
  match trimEnd s with
  | EmptyString => True
  | String c _ => match s with
                  | String d _ => c = d
                  | EmptyString => False
                  end
  end.
Proof.
  destruct s as [|d rest]; simpl; [exact I|].
  destruct (trimEnd rest); [destruct (isWhiteSpace d)|]; simpl; trivial.
Qed.

Lemma trimEnd_idempotent (s : string) : trimEnd (trimEnd s) = trimEnd s.
Proof.
  induction s as [|c rest IH]; simpl; [reflexivity|].
  destruct (trimEnd rest) as [|k ks] eqn:E.
  - destruct (isWhiteSpace c) eqn:Hc; simpl; [reflexivity|]. now rewrite Hc.
  - change (trimEnd (String c (String k ks)))
      with (match trimEnd (String k ks) with
            | EmptyString => if isWhiteSpace c then EmptyString
                             else String c EmptyString
            | kept => String c kept
            end).
    now rewrite IH.
Qed.

(** Trimming a trimmed string changes nothing. *)
Lemma trim_idempotent (s : string) : trim (trim s) = trim s.
Proof.
  unfold trim.
  assert (H : trimStart (trimEnd (trimStart s)) = trimEnd (trimStart s)).
  { apply trimStart_fixed.
    pose proof (trimStart_head s) as Hs. pose proof (trimEnd_head (trimStart s)) as He.
    destruct (trimEnd (trimStart s)) as [|c k]; [exact I|].
    destruct (trimStart s) as [|d r]; [destruct He|]. now subst. }
  rewrite H. apply trimEnd_idempotent.
Qed.

End TrimFacts.

(* ================================================================== *)
(** ** More about the timeline of [ChatThread] *)

Module ThreadMoreFacts.
Import Js JsFacts TrimFacts Thread ThreadTrace Scenario ThreadFacts.

Local Arguments hasId : simpl never.

Lemma hasId_app_self (l : list Message) (m : Message) :
  hasId (id m) (l ++ [m]) = true.
Proof.
  unfold hasId. rewrite existsb_app. simpl.
  now rewrite strictEq_refl, orb_true_r.
Qed.

Lemma hasId_In (i : Id) (l : list Message) :
  hasId i l = true <-> In i (map id l).
Proof.
  unfold hasId. rewrite existsb_exists, in_map_iff. split.
  - intros (x & Hx & E). apply strictEq_eq in E. now exists x.
  - intros (x & E & Hx). exists x. split; [exact Hx|]. now apply strictEq_eq.
Qed.

Lemma messages_after_push (p : Props) (w : World) (m : Message) :
  messages (ui (step p w (Pushed m)))
  = if channel w && negb (hasId (id m) (messages (ui w)))
    then messages (ui w) ++ [m] else messages (ui w).
Proof.
  unfold step, perform_, perform, onInsert, setMessages, hasId.
  destruct (channel w); simpl; [|reflexivity].
  destruct (existsb _ (messages (ui w))); reflexivity.
Qed.

(** X1. A pushed row that is delivered twice counts once: the second
    delivery leaves every state cell as the first one left it. *)
Theorem push_twice_is_push_once (p : Props) (w : World) (m : Message) :
  ui (step p (step p w (Pushed m)) (Pushed m)) = ui (step p w (Pushed m)).
Proof.
  unfold step. destruct (channel w) eqn:Hc; [|now rewrite Hc].
  assert (Hch : channel (perform_ (onInsert m) w) = true) by exact Hc.
  rewrite Hch. unfold perform_, perform, onInsert, setMessages. cbn.
  destruct (existsb _ (messages (ui w))) eqn:E.
  - now rewrite E.
  - change (existsb _ (messages (ui w) ++ [m]))
      with (hasId (id m) (messages (ui w) ++ [m])).
    now rewrite hasId_app_self.
Qed.

(** X2. The INSERT handler keeps the ids of the timeline pairwise distinct,
    keeps every entry where it was, and adds at most one entry at the end. *)
Theorem push_keeps_ids_distinct (p : Props) (w : World) (m : Message) :
  NoDup (map id (messages (ui w))) ->
  NoDup (map id (messages (ui (step p w (Pushed m)))))
  /\ exists added, messages (ui (step p w (Pushed m))) = messages (ui w) ++ added
                   /\ (length added <= 1)%nat.
Proof.
  intros Hnd. rewrite messages_after_push.
  destruct (channel w && negb (hasId (id m) (messages (ui w)))) eqn:E.
  - apply andb_true_iff in E as [_ Hno]. apply negb_true_iff in Hno.
    split; [|exists [m]; split; [reflexivity | simpl; lia]].
    rewrite map_app. apply NoDup_app; [exact Hnd | repeat constructor; intros [] |].
    intros a Ha [<-|[]].
    apply hasId_In in Ha. congruence.
  - split; [exact Hnd|]. exists []. rewrite app_nil_r. split; [reflexivity | simpl; lia].
Qed.

Lemma push_keeps_ids_distinct_witness :
  NoDup (map id [m0])
  /\ NoDup (map id (messages (ui (step props
              (run props (mount props) [LoadSettled 0 (ok [m0])]) (Pushed m1))))).
Proof.
  assert (H : NoDup (map id (messages (ui (run props (mount props)
                                               [LoadSettled 0 (ok [m0])]))))).
  { repeat constructor; simpl; tauto. }
  split; [exact H|].
  apply (push_keeps_ids_distinct props
           (run props (mount props) [LoadSettled 0 (ok [m0])]) m1 H).
Defined.

Lemma replace_absent (token : Id) (row : Message) (l : list Message) :
  hasId token l = false ->
  map (fun message => if strictEq (id message) token then row else message) l = l.
Proof.
  unfold hasId. induction l as [|x l IH]; simpl; [reflexivity|].
  intros H. apply orb_false_iff in H as [Hx Hl]. now rewrite Hx, IH.
Qed.

Lemma filter_absent (token : Id) (l : list Message) :
  hasId token l = false ->
  filter (fun message => negb (strictEq (id message) token)) l = l.
Proof.
  unfold hasId. induction l as [|x l IH]; simpl; [reflexivity|].
  intros H. apply orb_false_iff in H as [Hx Hl]. now rewrite Hx, IH.
Qed.

(** X3. A send whose insert succeeds, with nothing else happening in
    between: the timeline ends as it was before the send with the stored
    row appended, the composer is empty and the flag is down. *)
Theorem send_then_success (p : Props) (now : Z) (iso : string) (s : State)
    (row : Message) :
  not_ (trim (messageText s)) = false ->
  sendingMessage s = false ->
  hasId (tempId now) (messages s) = false ->
  let sent := sendMessage_begin p now iso s in
  exists k, valueOf sent = Some k
    /\ stateOf (sendMessage_resume k (ok row) (stateOf sent))
       = mkState (messages s ++ [row]) "" (loadingMessages s) false (refreshToken s)
    /\ effectsOf (sendMessage_resume k (ok row) (stateOf sent)) = [].
Proof.
  intros Hn Hs Hfresh sent.
  assert (E : sent = (Some (mkSendCont (tempId now) (trim (messageText s))),
                      mkState (messages s ++ [mkMessage (tempId now) iso (userId p)
                                                (trim (messageText s)) (conversationId p)])
                              "" (loadingMessages s) true (refreshToken s),
                      [InsertMessage (userId p) (conversationId p)
                                     (trim (messageText s))])).
  { unfold sent, sendMessage_begin. now rewrite Hn, Hs. }
  rewrite E. eexists. split; [reflexivity|]. split; [|reflexivity].
  cbn. rewrite map_app, (replace_absent _ _ _ Hfresh). simpl.
  now rewrite String.eqb_refl.
Qed.

Lemma send_then_success_witness :
  exists k, valueOf (sendMessage_begin props 42 "2024-01-01T00:00:00.000Z" hiTyped)
            = Some k
    /\ stateOf (sendMessage_resume k (ok m1) hiSent)
       = mkState [m1] "" false false 0
    /\ effectsOf (sendMessage_resume k (ok m1) hiSent) = [].
Proof.
  exact (send_then_success props 42 "2024-01-01T00:00:00.000Z" hiTyped m1
           eq_refl eq_refl eq_refl).
Defined.

(** X4. A send whose insert fails, with nothing else happening in between:
    every cell is back where it was before the send, except that the
    composer holds the trimmed text; the error is shown. *)
Theorem send_then_failure (p : Props) (now : Z) (iso : string) (s : State)
    (d : option Message) (msg : string) :
  not_ (trim (messageText s)) = false ->
  sendingMessage s = false ->
  hasId (tempId now) (messages s) = false ->
  let sent := sendMessage_begin p now iso s in
  exists k, valueOf sent = Some k
    /\ stateOf (sendMessage_resume k (mkResponse d (Some msg)) (stateOf sent))
       = mkState (messages s) (trim (messageText s)) (loadingMessages s) false
                 (refreshToken s)
    /\ effectsOf (sendMessage_resume k (mkResponse d (Some msg)) (stateOf sent))
       = [Alert msg].
Proof.
  intros Hn Hs Hfresh sent.
  assert (E : sent = (Some (mkSendCont (tempId now) (trim (messageText s))),
                      mkState (messages s ++ [mkMessage (tempId now) iso (userId p)
                                                (trim (messageText s)) (conversationId p)])
                              "" (loadingMessages s) true (refreshToken s),
                      [InsertMessage (userId p) (conversationId p)
                                     (trim (messageText s))])).
  { unfold sent, sendMessage_begin. now rewrite Hn, Hs. }
  rewrite E. eexists. split; [reflexivity|]. split; [|reflexivity].
  cbn. rewrite filter_app, (filter_absent _ _ Hfresh). simpl.
  rewrite String.eqb_refl. simpl. now rewrite app_nil_r.
Qed.

Lemma send_then_failure_witness :
  exists k, valueOf (sendMessage_begin props 42 "2024-01-01T00:00:00.000Z" hiTyped)
            = Some k
    /\ stateOf (sendMessage_resume k (mkResponse None (Some "rejected")) hiSent)
       = mkState [] "hi" false false 0
    /\ effectsOf (sendMessage_resume k (mkResponse None (Some "rejected")) hiSent)
       = [Alert "rejected"].
Proof.
  exact (send_then_failure props 42 "2024-01-01T00:00:00.000Z" hiTyped None
           "rejected" eq_refl eq_refl eq_refl).
Defined.

(** X5. The answer of an insert never lengthens the timeline, and when no
    entry carries the token of the send any more (a load has replaced the
    timeline meanwhile) it changes no entry at all: the stored row is not
    added. *)
Theorem insert_answer_adds_nothing (k : SendCont) (r : Response Message) (s : State) :
  (length (messages (stateOf (sendMessage_resume k r s))) <= length (messages s))%nat
  /\ (hasId (optimisticId k) (messages s) = false ->
      messages (stateOf (sendMessage_resume k r s)) = messages s).
Proof.
  unfold sendMessage_resume. destruct (error r) as [msg|]; [|destruct (data r) as [row|]];
    cbn; split; try reflexivity; try lia.
  - apply filter_length_le.
  - intros H. now apply filter_absent.
  - now rewrite length_map.
  - intros H. now apply replace_absent.
Qed.

Lemma insert_answer_adds_nothing_witness :
  hasId (optimisticId hiCont) [m0] = false
  /\ messages (stateOf (sendMessage_resume hiCont (ok m1)
                          (mkState [m0] "" false true 0))) = [m0].
Proof.
  split; [reflexivity|].
  apply (insert_answer_adds_nothing hiCont (ok m1) (mkState [m0] "" false true 0)).
  reflexivity.
Defined.

(** *** What a step does to the closures and to the trace *)

Lemma perform_closures {A : Type} (a : Act A) (w : World) :
  liveLoad (snd (perform a w)) = liveLoad w
  /\ loadRuns (snd (perform a w)) = loadRuns w
  /\ channel (snd (perform a w)) = channel w
  /\ inflight (snd (perform a w)) = inflight w
  /\ effects (snd (perform a w)) = effects w ++ effectsOf (a (ui w)).
Proof.
  unfold perform, effectsOf. destruct (a (ui w)) as [[v s'] out]. now simpl.
Qed.

(** The runs of the load effect are numbered in order, and the run whose
    answer is awaited, if any, is the latest. *)
Lemma step_load_runs (p : Props) (w : World) (e : Event) :
  (forall n, liveLoad w = Some n -> S n = loadRuns w) ->
  (forall n, liveLoad (step p w e) = Some n -> S n = loadRuns (step p w e))
  /\ (loadRuns w <= loadRuns (step p w e))%nat.
Proof.
  intros H. destruct e as [text|now iso|r|m| |n r| ]; unfold step.
  - destruct (sendingMessage (ui w)); [split; [exact H | lia]|].
    unfold perform_.
    destruct (perform_closures (setMessageText text) w) as (-> & -> & _).
    split; [exact H | lia].
  - destruct (perform (sendMessage_begin p now iso) w) as [k w1] eqn:E.
    assert (Hw1 : w1 = snd (perform (sendMessage_begin p now iso) w))
      by now rewrite E.
    destruct (perform_closures (sendMessage_begin p now iso) w) as (Hl & Hr & _).
    rewrite <- Hw1 in Hl, Hr.
    destruct k; simpl; rewrite Hl, Hr; split; try exact H; lia.
  - destruct (inflight w); [|split; [exact H | lia]].
    simpl. unfold perform_.
    destruct (perform_closures (sendMessage_resume s r) w) as (-> & -> & _).
    split; [exact H | lia].
  - destruct (channel w); [|split; [exact H | lia]].
    unfold perform_.
    destruct (perform_closures (onInsert m) w) as (-> & -> & _).
    split; [exact H | lia].
  - assert (Hr : loadRuns (perform_ (loadMessages_begin p)
                             (perform_ (setRefreshToken S) w)) = loadRuns w).
    { unfold perform_.
      destruct (perform_closures (loadMessages_begin p)
                  (snd (perform (setRefreshToken S) w))) as (_ & -> & _).
      now destruct (perform_closures (setRefreshToken S) w) as (_ & -> & _). }
    unfold runLoadEffect. cbv zeta. cbn [liveLoad loadRuns]. rewrite Hr.
    split; [intros n Hn; now inversion Hn | lia].
  - unfold perform_.
    destruct (perform_closures (loadMessages_resume (isLive w n) r) w)
      as (-> & -> & _).
    split; [exact H | lia].
  - simpl. split; [discriminate | lia].
Qed.

Lemma run_load_runs (p : Props) (es : list Event) (w : World) :
  (forall n, liveLoad w = Some n -> S n = loadRuns w) ->
  (forall n, liveLoad (run p w es) = Some n -> S n = loadRuns (run p w es)).
Proof.
  revert w. induction es as [|e es IH]; intros w H; [exact H|].
  simpl. apply IH. now apply step_load_runs.
Qed.

Lemma mount_load_runs (p : Props) :
  forall n, liveLoad (mount p) = Some n -> S n = loadRuns (mount p).
Proof.
  unfold mount, runChannelEffect.
  destruct (not_ (conversationId p)); cbn; intros n H; now inversion H.
Qed.

(** X6. Only the latest run of the load effect is listened to: whatever has
    happened since the screen was opened, the answer to any earlier run
    (one that a refresh has superseded) changes no state cell, raises no
    alert and leaves the closures alone. *)
Theorem stale_load_is_discarded (p : Props) (es : list Event) (n : nat)
    (r : Response (list Message)) :
  let w := run p (mount p) es in
  (S n < loadRuns w)%nat ->
  step p w (LoadSettled n r) = w.
Proof.
  intros w Hn.
  assert (Hlive : isLive w n = false).
  { unfold isLive. destruct (liveLoad w) as [live|] eqn:E; [|reflexivity].
    apply (run_load_runs p es (mount p) (mount_load_runs p)) in E.
    fold w in E. apply Nat.eqb_neq. lia. }
  unfold step, perform_, perform. rewrite Hlive. cbn.
  rewrite app_nil_r. apply world_eta.
Qed.

Lemma stale_load_is_discarded_witness :
  (1 < loadRuns (run props (mount props) [PullRefresh]))%nat
  /\ step props (run props (mount props) [PullRefresh]) (LoadSettled 0 (ok [m0]))
     = run props (mount props) [PullRefresh].
Proof.
  split; [apply Nat.leb_le; reflexivity|].
  apply (stale_load_is_discarded props [PullRefresh] 0 (ok [m0])).
  apply Nat.leb_le. reflexivity.
Defined.

(** What one step appends to the trace, and what it does to the channel. *)
Lemma step_emits (p : Props) (w : World) (e : Event) :
  exists out,
    effects (step p w e) = effects w ++ out
    /\ match e with
       | PressSend _ _ =>
           out = []
           \/ (out = [InsertMessage (userId p) (conversationId p)
                                    (trim (messageText (ui w)))]
               /\ not_ (trim (messageText (ui w))) = false)
       | PullRefresh => out = [SelectMessages (conversationId p)]
       | Deactivate =>
           out = if channel w then [RemoveChannel (conversationId p)] else []
       | _ => out = [] \/ exists msg, out = [Alert msg]
       end
    /\ channel (step p w e) = match e with
                              | Deactivate => false
                              | _ => channel w
                              end.
Proof.
  destruct e as [text|now iso|r|m| |n r| ]; unfold step.
  - exists []. rewrite app_nil_r.
    destruct (sendingMessage (ui w)); [auto|]. cbn. rewrite app_nil_r. auto.
  - unfold perform, sendMessage_begin.
    destruct (not_ (trim (messageText (ui w)))) eqn:Hn;
      [exists []; cbn; rewrite !app_nil_r; auto|].
    destruct (sendingMessage (ui w));
      [exists []; cbn; rewrite !app_nil_r; auto|].
    eexists. cbn. split; [reflexivity|]. split; [right; split; reflexivity|].
    reflexivity.
  - destruct (inflight w) as [k|]; [|exists []; rewrite app_nil_r; auto].
    unfold perform_, perform, sendMessage_resume.
    destruct (error r) as [msg|]; [|destruct (data r)];
      eexists; cbn; (split; [reflexivity|]); (split; [|reflexivity]);
      first [left; reflexivity | right; eexists; reflexivity].
  - destruct (channel w) eqn:Hc; [|exists []; rewrite app_nil_r; auto].
    exists []. cbn. auto.
  - eexists. cbn. rewrite <- app_assoc. split; [reflexivity|]. split; reflexivity.
  - unfold perform_, perform, loadMessages_resume.
    destruct (isLive w n); [|exists []; cbn; auto].
    destruct (error r) as [msg|]; eexists; cbn;
      (split; [reflexivity|]); (split; [|reflexivity]);
      first [left; reflexivity | right; eexists; reflexivity].
  - eexists. cbn. split; [reflexivity|]. split; reflexivity.
Qed.

(** *** The subscription *)

Lemma channelFits_mount (p : Props) : channelFits p (mount p).
Proof.
  unfold channelFits, mount, runChannelEffect.
  destruct (not_ (conversationId p)); cbn; auto.
Qed.

Lemma channelFits_step (p : Props) (w : World) (e : Event) :
  channelFits p w -> channelFits p (step p w e).
Proof.
  unfold channelFits, channelEffects.
  destruct (step_emits p w e) as (out & -> & Hout & ->).
  rewrite filter_app.
  assert (Hquiet : match e with Deactivate => True | _ => filter isChannelEffect out = [] end).
  { destruct e; trivial;
      try (destruct Hout as [->|(msg & ->)]; reflexivity);
      try (destruct Hout as [->|[-> _]]; reflexivity).
    now subst out. }
  destruct e; try (rewrite Hquiet, app_nil_r; tauto).
  subst out.
  destruct (not_ (conversationId p)).
  - intros [Hc Hf]. rewrite Hc, Hf. auto.
  - intros [[Hc Hf]|[Hc Hf]]; rewrite Hc, Hf; right; auto.
Qed.

(** X7. An instance subscribes at most once, when it is opened and only if
    it has a conversation id; the channel is removed at most once, by the
    cleanup, and only if it was opened; nothing else subscribes or removes.
    Without a conversation id no pushed row ever reaches the timeline. *)
Theorem one_subscription_per_instance (p : Props) (es : list Event) :
  let w := run p (mount p) es in
  (not_ (conversationId p) = true ->
     channelEffects (effects w) = []
     /\ forall m, step p w (Pushed m) = w)
  /\ (not_ (conversationId p) = false ->
        (channel w = true
         /\ channelEffects (effects w) = [SubscribeInserts (conversationId p)])
        \/ (channel w = false
            /\ channelEffects (effects w)
               = [SubscribeInserts (conversationId p);
                  RemoveChannel (conversationId p)])).
Proof.
  intros w.
  assert (H : channelFits p w).
  { unfold w. generalize (channelFits_mount p). generalize (mount p).
    induction es as [|e es IH]; intros w0 H0; [exact H0|].
    simpl. apply IH. now apply channelFits_step. }
  unfold channelFits in H. split; intros Hc; rewrite Hc in H.
  - destruct H as [Hch Hf]. split; [exact Hf|].
    intros m. unfold step. now rewrite Hch.
  - exact H.
Qed.

Lemma one_subscription_per_instance_witness :
  not_ (conversationId props) = false
  /\ channelEffects (effects (run props (mount props) leftWhileSending))
     = [SubscribeInserts "c1"; RemoveChannel "c1"].
Proof.
  split; [reflexivity|].
  destruct (proj2 (one_subscription_per_instance props leftWhileSending) eq_refl)
    as [[Hc _]|[_ Hf]]; [discriminate Hc | exact Hf].
Defined.

(** *** The inserts an instance asks for *)

(** X8. Every insert an instance ever requests is for its own user and
    conversation, and its body is not empty and has no white space left to
    trim at either end. *)
Theorem inserts_are_trimmed (p : Props) (es : list Event) :
  forallb (ownInsert p) (effects (run p (mount p) es)) = true.
Proof.
  assert (Hm : forallb (ownInsert p) (effects (mount p)) = true).
  { unfold mount, runChannelEffect. destruct (not_ (conversationId p)); reflexivity. }
  revert Hm. generalize (mount p).
  induction es as [|e es IH]; intros w Hw; [exact Hw|].
  simpl. apply IH.
  destruct (step_emits p w e) as (out & -> & Hout & _).
  rewrite forallb_app, Hw. simpl.
  destruct e; try (destruct Hout as [->|(msg & ->)]; reflexivity);
    try (subst out; reflexivity).
  - destruct Hout as [->|[-> Hn]]; [reflexivity|].
    simpl. rewrite !String.eqb_refl, Hn, trim_idempotent, String.eqb_refl.
    reflexivity.
  - subst out. destruct (channel w); reflexivity.
Qed.

(** X22. The answer of the insert is handled first and the push of the
    same stored row second: if one entry carries the token of the suspended
    send and no entry carries the id of the stored row yet, then afterwards
    exactly one entry carries that id, whether or not the channel is still
    open. *)
Theorem answer_then_push_keeps_one (p : Props) (w : World) (k : SendCont)
    (row : Message) :
  inflight w = Some k ->
  strictEq (id row) (optimisticId k) = false ->
  countId (optimisticId k) (messages (ui w)) = 1%nat ->
  hasId (id row) (messages (ui w)) = false ->
  countId (id row)
          (messages (ui (run p w [InsertSettled (ok row); Pushed row]))) = 1%nat.
Proof.
  intros Hk Hne Hone Hnone.
  change (run p w [InsertSettled (ok row); Pushed row])
    with (step p (step p w (InsertSettled (ok row))) (Pushed row)).
  rewrite messages_after_push.
  assert (Hm : messages (ui (step p w (InsertSettled (ok row))))
               = map (fun message =>
                        if strictEq (id message) (optimisticId k) then row
                        else message)
                     (messages (ui w))).
  { unfold step. rewrite Hk. reflexivity. }
  assert (Hc : countId (id row) (messages (ui (step p w (InsertSettled (ok row)))))
               = 1%nat).
  { rewrite Hm, countId_replace by exact Hne.
    apply hasId_false_count in Hnone. lia. }
  destruct (hasId (id row) (messages (ui (step p w (InsertSettled (ok row))))))
    eqn:E.
  - now rewrite andb_false_r.
  - apply hasId_false_count in E. lia.
Qed.

Lemma answer_then_push_keeps_one_witness :
  inflight (run props (mount props) sending) = Some hiCont
  /\ countId (id m1)
       (messages (ui (run props (run props (mount props) sending)
                          [InsertSettled (ok m1); Pushed m1]))) = 1%nat.
Proof.
  split; [vm_compute; reflexivity|].
  apply (answer_then_push_keeps_one props (run props (mount props) sending) hiCont m1);
    vm_compute; reflexivity.
Defined.

End ThreadMoreFacts.

(* ================================================================== *)
(** ** Titles and initials *)

Module DisplayFacts.
Import Js JsFacts TrimFacts Display.


Lemma orString_not_empty (a : option string) (d : string) :
  not_ d = false -> not_ (orString a d) = false.
Proof. intros Hd. destruct a as [[|c r]|]; simpl; trivial. Qed.

(** X9. The title shown for a profile is never empty, in the thread header
    and in the chat list alike, and the two screens show the same title
    unless both fall back to their own default text. *)
Theorem title_is_never_empty (name email : option string) :
  not_ (headerTitle name email) = false
  /\ not_ (chatRowTitle name email) = false
  /\ (headerTitle name email = chatRowTitle name email
      \/ (headerTitle name email = "Chat"
          /\ chatRowTitle name email = "Unknown user")).
Proof.
  unfold headerTitle, chatRowTitle. conjuncts.
  - apply orString_not_empty. now apply orString_not_empty.
  - apply orString_not_empty. now apply orString_not_empty.
  - destruct (optTrim name) as [[|c r]|]; simpl; auto;
      destruct email as [[|d e]|]; simpl; auto.
Qed.



(** X11. The line under the welcome card of the account screen is empty in
    one case only: no name, and an e-mail address that is the empty
    string (the fallback text is used for a missing address only). *)
Theorem account_subtitle_empty_iff (email name : option string) :
  accountSubtitle email name = ""
  <-> truthy name = false /\ email = Some "".
Proof.
  unfold accountSubtitle.
  destruct name as [[|c r]|]; simpl.
  - destruct email as [e|]; simpl; split.
    + intros ->. auto.
    + intros [_ H]. now inversion H.
    + discriminate.
    + intros [_ H]. discriminate.
  - split; [discriminate | intros [H _]; discriminate].
  - destruct email as [e|]; simpl; split.
    + intros ->. auto.
    + intros [_ H]. now inversion H.
    + discriminate.
    + intros [_ H]. discriminate.
Qed.

End DisplayFacts.

(* ================================================================== *)
(** ** More about the resolver of [ChatList] *)

Module ChatListMoreFacts.
Import Js ChatList ResolverScenario ResolverMore ChatListFacts.

(** X12. When [openConversation] reaches the thread screen, it does so
    for the signed-in user and the chosen profile, and both are members of
    the conversation it hands over, in the tables as the call leaves
    them. *)
Theorem navigates_to_a_shared_conversation (env : Backend) (a : string)
    (pb : Profile) (db db1 : Db) (params : ChatThreadParams)
    (asked : list Request) :
  openConversation env a pb db = (Navigated params, db1, asked) ->
  userId params = a
  /\ profileId params = id pb
  /\ In (mkMember (conversationId params) a) (conversation_members db1)
  /\ In (mkMember (conversationId params) (id pb)) (conversation_members db1).
Proof.
  intros H. apply navigated_cases in H as (c & -> & Hcase). simpl.
  split; [reflexivity|]. split; [reflexivity|].
  destruct Hcase as [[-> (r & rest & Hrows & Hc)]|[-> _]].
  - assert (Hr : In r (sharedRows db a (id pb))) by (rewrite Hrows; now left).
    apply sharedRows_In in Hr as (Hr & Hu & Hself).
    rewrite <- (member_eta r), Hu, Hc in Hr. rewrite Hc in Hself. auto.
  - simpl. split; apply in_or_app; right; simpl; auto.
Qed.

Lemma navigates_to_a_shared_conversation_witness :
  In (mkMember "c9" "u1") (conversation_members after)
  /\ In (mkMember "c9" "u2") (conversation_members after).
Proof.
  destruct (navigates_to_a_shared_conversation healthy "u1" bob before after
              (paramsFor "u1" "c9" bob)
              [SelectMemberships "u1"; SelectShared "u2" ["c1"]; InsertConversation;
               InsertMembers [mkMember "c9" "u1"; mkMember "c9" "u2"]] eq_refl)
    as (_ & _ & H1 & H2).
  split; [exact H1 | exact H2].
Defined.

(** X13. [openConversation] only ever adds rows: the tables it leaves
    start with the tables it found; it adds at most one conversation, and
    either no membership row or the two rows of the conversation it has
    just added; when it ends in an alert it has added no membership row. *)
Theorem resolver_only_appends (env : Backend) (a : string) (pb : Profile) (db : Db) :
  let result := openConversation env a pb db in
  let db1 := snd (fst result) in
  exists newConversations newMembers,
    conversations db1 = conversations db ++ newConversations
    /\ conversation_members db1 = conversation_members db ++ newMembers
    /\ (length newConversations <= 1)%nat
    /\ (newMembers = []
        \/ exists c, newConversations = [c]
                     /\ newMembers = [mkMember c a; mkMember c (id pb)])
    /\ (resolved (fst (fst result)) = None -> newMembers = []).
Proof.
  unfold openConversation.
  destruct (lookupShared env a pb db) as [[msg|[c|]] asked];
    [exists [], []; simpl; rewrite !app_nil_r; conjuncts; auto ..|].
  destruct (error (conversationInsert env));
    [exists [], []; simpl; rewrite !app_nil_r; conjuncts; auto|].
  destruct (data (conversationInsert env)) as [c|];
    [|exists [], []; simpl; rewrite !app_nil_r; conjuncts; auto].
  destruct (memberInsertError env).
  - exists [c], []. simpl. rewrite app_nil_r. conjuncts; auto.
  - exists [c], [mkMember c a; mkMember c (id pb)]. simpl. conjuncts; auto.
    + right. now exists c.
    + discriminate.
Qed.

(** X14. The first request is always the membership query of the signed-in
    user; the shared-conversation query is only made with the non-empty
    list of that user's conversations; membership rows are only inserted
    after a conversation insert, and always as the pair of rows of one
    conversation for the signed-in user and the chosen profile. *)
Theorem resolver_requests_are_ordered (env : Backend) (a : string) (pb : Profile)
    (db : Db) :
  let asked := snd (openConversation env a pb db) in
  (exists rest, asked = SelectMemberships a :: rest)
  /\ (forall u ids, In (SelectShared u ids) asked ->
        u = id pb /\ ids = selectMemberships db a /\ ids <> [])
  /\ (forall rows, In (InsertMembers rows) asked ->
        In InsertConversation asked
        /\ exists c, rows = [mkMember c a; mkMember c (id pb)]).
Proof.
  assert (Hlook : forall r asked0, lookupShared env a pb db = (r, asked0) ->
            (asked0 = [SelectMemberships a]
             \/ (asked0 = [SelectMemberships a;
                           SelectShared (id pb) (selectMemberships db a)]
                 /\ selectMemberships db a <> []))).
  { unfold lookupShared. intros r asked0.
    destruct (membershipError env); [intros H; inversion H; auto|].
    destruct (selectMemberships db a) as [|x ids] eqn:Hids;
      [intros H; inversion H; auto|].
    destruct (sharedError env); [intros H; inversion H; right; split; [reflexivity | discriminate]|].
    destruct (selectShared db (id pb) (x :: ids));
      intros H; inversion H; right; (split; [reflexivity | discriminate]). }
  unfold openConversation.
  destruct (lookupShared env a pb db) as [r asked0] eqn:E.
  specialize (Hlook r asked0 eq_refl).
  assert (Hshape : forall tail,
            (exists rest, asked0 ++ tail = SelectMemberships a :: rest)
            /\ (forall u ids, In (SelectShared u ids) (asked0 ++ tail) ->
                  In (SelectShared u ids) tail
                  \/ (u = id pb /\ ids = selectMemberships db a /\ ids <> []))).
  { intros tail. destruct Hlook as [->|[-> Hne]]; simpl.
    - split; [eauto|]. intros u ids [H|H]; [discriminate | auto].
    - split; [eauto|]. intros u ids [H|[H|H]]; [discriminate| |auto].
      inversion H. subst. auto. }
  destruct r as [msg|[c|]].
  - simpl. destruct (Hshape []) as [H1 H2]. rewrite app_nil_r in H1, H2.
    conjuncts; [exact H1| |].
    + intros u ids H. destruct (H2 u ids H) as [[]|H']; exact H'.
    + intros rows H. exfalso.
      destruct Hlook as [->|[-> _]]; simpl in H; intuition discriminate.
  - simpl. destruct (Hshape []) as [H1 H2]. rewrite app_nil_r in H1, H2.
    conjuncts; [exact H1| |].
    + intros u ids H. destruct (H2 u ids H) as [[]|H']; exact H'.
    + intros rows H. exfalso.
      destruct Hlook as [->|[-> _]]; simpl in H; intuition discriminate.
  - assert (Hnoins : forall rows, ~ In (InsertMembers rows) asked0).
    { intros rows H. destruct Hlook as [->|[-> _]]; simpl in H; intuition discriminate. }
    destruct (error (conversationInsert env));
      [|destruct (data (conversationInsert env)) as [c|];
        [destruct (memberInsertError env)|]]; simpl;
      rewrite <- ?app_assoc; simpl;
      match goal with
      | |- context [asked0 ++ ?tail] => destruct (Hshape tail) as [H1 H2]
      end;
      (conjuncts; [exact H1| |]);
      try (intros u ids H; destruct (H2 u ids H) as [H'|H']; [|exact H'];
           simpl in H'; intuition discriminate);
      intros rows H; apply in_app_or in H as [H|H];
      try (now apply Hnoins in H);
      simpl in H; try (intuition discriminate).
    + destruct H as [H|[H|[]]]; [discriminate|]. inversion H. subst rows.
      split; [apply in_or_app; right; now left | now exists c].
    + destruct H as [H|[H|[]]]; [discriminate|]. inversion H. subst rows.
      split; [apply in_or_app; right; now left | now exists c].
Qed.

Lemma resolver_only_appends_witness :
  resolved (fst (fst (openConversation membersRejected "u1" bob before))) = None
  /\ conversation_members (snd (fst (openConversation membersRejected "u1" bob before)))
     = conversation_members before.
Proof.
  split; [reflexivity|].
  destruct (resolver_only_appends membersRejected "u1" bob before)
    as (cs & ms & _ & Hm & _ & _ & Hnone).
  rewrite Hm, (Hnone eq_refl). apply app_nil_r.
Defined.

Lemma resolver_requests_are_ordered_witness :
  In (SelectShared "u2" ["c1"]) (snd (openConversation healthy "u1" bob before))
  /\ ["c1"] = selectMemberships before "u1".
Proof.
  assert (H : In (SelectShared "u2" ["c1"])
                 (snd (openConversation healthy "u1" bob before)))
    by (right; now left).
  split; [exact H|].
  destruct (resolver_requests_are_ordered healthy "u1" bob before) as (_ & Hs & _).
  exact (proj1 (proj2 (Hs "u2" ["c1"] H))).
Defined.

(** With both queries answered and nothing shared, the lookup finds
    nothing. *)
Lemma lookup_misses (env : Backend) (a : string) (pb : Profile) (db : Db) :
  quiet env = true ->
  sharedRows db a (id pb) = [] ->
  exists asked, lookupShared env a pb db = (inr None, asked).
Proof.
  unfold quiet, lookupShared. intros Hq Hnone.
  destruct (membershipError env); [discriminate|].
  destruct (sharedError env); [discriminate|].
  destruct (selectMemberships db a) as [|x ids] eqn:Hids; [eauto|].
  rewrite <- Hids, selectShared_rows, Hnone. simpl. eauto.
Qed.

Lemma membersOf_insertConversation (db : Db) (c c' : string) :
  membersOf (insertConversation db c) c' = membersOf db c'.
Proof. reflexivity. Qed.

Lemma membersOf_insertMembers (db : Db) (c c' a b : string) :
  String.eqb c c' = false ->
  membersOf (insertMembers db [mkMember c a; mkMember c b]) c' = membersOf db c'.
Proof.
  intros Hne. unfold membersOf. simpl. rewrite filter_app. simpl.
  rewrite Hne. simpl. now rewrite app_nil_r.
Qed.

(** X15. A call whose conversation insert succeeds and whose membership
    insert is rejected ends in an alert and leaves the new conversation
    behind without any member.  The next call for the same pair does not
    find that conversation: it stores a second one and navigates there,
    and the first stays without the members it was created for. *)
Theorem rejected_members_leave_an_orphan (env1 env2 : Backend) (a : string)
    (pb : Profile) (db : Db) (c1 c2 msg : string) :
  sharedRows db a (id pb) = [] ->
  quiet env1 = true ->
  conversationInsert env1 = ok c1 ->
  memberInsertError env1 = Some msg ->
  quiet env2 = true ->
  conversationInsert env2 = ok c2 ->
  memberInsertError env2 = None ->
  String.eqb c2 c1 = false ->
  let first := openConversation env1 a pb db in
  let second := openConversation env2 a pb (snd (fst first)) in
  fst (fst first) = Alerted msg
  /\ snd (fst first) = insertConversation db c1
  /\ resolved (fst (fst second)) = Some c2
  /\ conversations (snd (fst second)) = conversations db ++ [c1; c2]
  /\ membersOf (snd (fst second)) c1 = membersOf db c1.
Proof.
  intros Hnone Hq1 Hc1 Hm1 Hq2 Hc2 Hm2 Hne first second.
  assert (E1 : fst first = (Alerted msg, insertConversation db c1)).
  { unfold first, openConversation.
    destruct (lookup_misses env1 a pb db Hq1 Hnone) as (asked & ->).
    now rewrite Hc1, Hm1. }
  assert (E2 : fst second
               = (Navigated (paramsFor a c2 pb),
                  insertMembers (insertConversation (insertConversation db c1) c2)
                                [mkMember c2 a; mkMember c2 (id pb)])).
  { unfold second. rewrite E1. simpl snd. unfold openConversation.
    destruct (lookup_misses env2 a pb (insertConversation db c1) Hq2 Hnone)
      as (asked & ->).
    now rewrite Hc2, Hm2. }
  rewrite E1, E2. simpl fst. simpl snd. conjuncts; try reflexivity.
  - simpl. now rewrite <- app_assoc.
  - rewrite membersOf_insertMembers by exact Hne. reflexivity.
Qed.

Lemma rejected_members_leave_an_orphan_witness :
  sharedRows before "u1" (id bob) = []
  /\ resolved (fst (fst (openConversation healthy "u1" bob
                           (snd (fst (openConversation membersRejected "u1" bob
                                        before)))))) = Some "c9"
  /\ membersOf (snd (fst (openConversation healthy "u1" bob
                            (snd (fst (openConversation membersRejected "u1" bob
                                         before)))))) "c8" = [].
Proof.
  split; [reflexivity|].
  destruct (rejected_members_leave_an_orphan membersRejected healthy "u1" bob
              before "c8" "c9" "rejected"
              eq_refl eq_refl eq_refl eq_refl eq_refl eq_refl eq_refl eq_refl)
    as (_ & _ & H3 & _ & H5).
  split; [exact H3 | exact H5].
Defined.

(** *** The invariants of the tables are kept *)




Section Created.

Variables (db : Db) (a b c : string).
Hypothesis distinct : a <> b.
Hypothesis fresh : ~ In c (map conversation_id (conversation_members db)).
Hypothesis unshared : sharedRows db a b = [].

Let db1 : Db :=
  insertMembers (insertConversation db c) [mkMember c a; mkMember c b].





End Created.



End ChatListMoreFacts.

(* ================================================================== *)
(** ** The sign-up screens *)

Module SignupFacts.
Import Js JsFacts TrimFacts Signup.

Lemma not_false_iff (s : string) : not_ s = false <-> s <> "".
Proof. destruct s; simpl; split; congruence. Qed.

(** X17. The details typed on the first screen reach the last one intact:
    whenever [signUpWithEmail] opens the name screen and [handleContinue]
    then opens the picture screen, the picture screen holds the trimmed
    e-mail address, the password as typed and the trimmed name, none of
    them empty; so [handleCreateAccount] either asks for a photo or goes
    on to sign up with exactly these details, and lowers [uploading] at
    the end. *)
Theorem signup_details_survive_the_flow (env : Backend) (image : option Asset)
    (email password fullName e1 p1 e2 p2 n2 : string) :
  In (Navigate (SignupFullName e1 p1)) (signUpWithEmail email password) ->
  In (Navigate (SignupProfilePicture e2 p2 n2)) (handleContinue e1 p1 fullName) ->
  e2 = trim email /\ p2 = password /\ n2 = trim fullName
  /\ not_ e2 = false /\ not_ p2 = false /\ not_ n2 = false
  /\ (handleCreateAccount env image e2 p2 n2 = [Alert "Please choose a profile photo."]
      \/ exists rest,
           handleCreateAccount env image e2 p2 n2
           = SetUploading true :: SignUp (trim email) password (trim fullName)
               :: rest ++ [SetUploading false]).
Proof.
  unfold signUpWithEmail, handleContinue.
  destruct (not_ (trim email)) eqn:He; [simpl; intuition discriminate|].
  destruct (not_ password) eqn:Hp; [simpl; intuition discriminate|].
  simpl. intros [H1|[]]. inversion H1. subst e1 p1.
  destruct (not_ (trim fullName)) eqn:Hn; [simpl; intuition discriminate|].
  rewrite trim_idempotent, He, Hp. simpl. intros [H2|[]]. inversion H2. subst e2 p2 n2.
  conjuncts; try reflexivity; try assumption.
  unfold handleCreateAccount.
  destruct image as [[[[|u us]|] [[|b bs]|] f t]|]; auto.
  rewrite trim_idempotent, He, Hp. simpl. right.
  unfold createAccount. simpl. eexists. reflexivity.
Qed.

Lemma signup_details_survive_the_flow_witness :
  In (Navigate (SignupFullName "ann@example.org" "secret"))
     (signUpWithEmail " ann@example.org " "secret")
  /\ In (Navigate (SignupProfilePicture "ann@example.org" "secret" "Ann"))
        (handleContinue "ann@example.org" "secret" "Ann ")
  /\ "ann@example.org" = trim " ann@example.org ".
Proof.
  assert (H1 : In (Navigate (SignupFullName "ann@example.org" "secret"))
                  (signUpWithEmail " ann@example.org " "secret")) by now left.
  assert (H2 : In (Navigate (SignupProfilePicture "ann@example.org" "secret" "Ann"))
                  (handleContinue "ann@example.org" "secret" "Ann ")) by now left.
  split; [exact H1|]. split; [exact H2|].
  exact (proj1 (signup_details_survive_the_flow welcoming (Some photo)
                  " ann@example.org " "secret" "Ann "
                  "ann@example.org" "secret" "ann@example.org" "secret" "Ann" H1 H2)).
Defined.

(** *** The picture *)

Lemma pickImage_usable (result : PickerResult) (image : option Asset) :
  match image with Some a => usable a = true | None => True end ->
  match fst (pickImage result image) with
  | Some a => usable a = true
  | None => True
  end.
Proof.
  intros H. unfold pickImage.
  destruct (didCancel result); [exact H|].
  destruct (assets result) as [[|a rest]|]; simpl; try exact H.
  unfold usable.
  destruct (uri a) as [[|u us]|] eqn:Hu; simpl; try exact H;
    destruct (base64 a) as [[|b bs]|] eqn:Hb; simpl; try exact H.
  now rewrite Hu, Hb.
Qed.

(** X18. Whatever the picker has answered so far, the picture the screen
    holds is either none or one with a uri and its base64 content; so
    [handleCreateAccount] asks for a photo exactly when no picture has been
    accepted yet. *)
Theorem picked_image_is_usable (results : list PickerResult) (env : Backend)
    (email password fullName : string) :
  match pickAll results with Some a => usable a = true | None => True end
  /\ (handleCreateAccount env (pickAll results) email password fullName
      = [Alert "Please choose a profile photo."]
      <-> pickAll results = None).
Proof.
  assert (H : match pickAll results with Some a => usable a = true | None => True end).
  { unfold pickAll.
    assert (G : forall image,
              match image with Some a => usable a = true | None => True end ->
              match fold_left (fun image result => fst (pickImage result image))
                              results image with
              | Some a => usable a = true
              | None => True
              end).
    { induction results as [|r rs IH]; intros image Hi; [exact Hi|].
      simpl. apply IH. now apply pickImage_usable. }
    now apply G. }
  split; [exact H|].
  destruct (pickAll results) as [a|]; [|split; reflexivity].
  split; [|discriminate].
  unfold handleCreateAccount, usable in *.
  destruct a as [[[|u us]|] [[|b bs]|] f t]; simpl in H; try discriminate.
  destruct (not_ (trim email) || not_ password); discriminate.
Qed.

(** *** The [uploading] cell *)

Lemma createAccount_leaves_uploading (env : Backend) (image : Asset)
    (payload trimmedEmail password fullName : string) :
  filter isSetUploading
         (createAccount env image payload trimmedEmail password fullName) = [].
Proof.
  unfold createAccount, uploadAndSave.
  destruct (error (signUp env)); [reflexivity|].
  destruct (data_session (data (signUp env))) as [s|]; simpl.
  - unfold userIdOf. destruct (data_session (data (signUp env))) as [s'|].
    + destruct (id (user s')) as [|c r]; [reflexivity|]. simpl.
      destruct (uploadError env); [reflexivity|]. simpl.
      destruct (profileError env); reflexivity.
    + destruct (option_map id (data_user (data (signUp env)))) as [[|c r]|];
        try reflexivity. simpl.
      destruct (uploadError env); [reflexivity|]. simpl.
      destruct (profileError env); reflexivity.
  - destruct (error (signInWithPassword env)); [reflexivity|].
    destruct (match data_session (data (signInWithPassword env)) with
              | Some s => Some (id (user s))
              | None => userIdOf (data (signUp env))
              end) as [[|c r]|]; try reflexivity. simpl.
    destruct (uploadError env); [reflexivity|]. simpl.
    destruct (profileError env); reflexivity.
Qed.

(** X19. [handleCreateAccount] raises [uploading] at most once and, on
    every way out of its [try] block, lowers it as its last action: a
    handler started with the flag down leaves it down. *)
Theorem uploading_is_always_lowered (env : Backend) (image : option Asset)
    (email password fullName : string) :
  let trace := handleCreateAccount env image email password fullName in
  uploadingAfter false trace = false
  /\ (filter isSetUploading trace = []
      \/ (filter isSetUploading trace = [SetUploading true; SetUploading false]
          /\ exists body, trace = SetUploading true :: body ++ [SetUploading false])).
Proof.
  unfold handleCreateAccount.
  destruct image as [[[[|u us]|] [[|b bs]|] f t]|];
    try (split; [reflexivity | left; reflexivity]).
  destruct (not_ (trim email) || not_ password);
    [split; [reflexivity | left; reflexivity]|].
  cbv zeta. split.
  - unfold uploadingAfter. cbn [fold_left]. now rewrite fold_left_app.
  - right. cbn [filter isSetUploading].
    rewrite filter_app, createAccount_leaves_uploading.
    split; [reflexivity|]. eexists. reflexivity.
Qed.

(** *** What is stored, and for whom *)

Lemma uploadAndSave_storage (env : Backend) (a : Asset)
    (payload uid e n : string) (x : Action) :
  isStorage x = true ->
  In x (uploadAndSave env a payload uid e n) ->
  x = Upload (filePathOf uid (extensionOf a)) payload
             (contentTypeOf a (extensionOf a))
  \/ (x = UpsertProfile uid n e (getPublicUrl env (filePathOf uid (extensionOf a)))
      /\ uploadError env = None).
Proof.
  unfold uploadAndSave. intros Hx [<-|Hin]; [now left|].
  destruct (uploadError env) as [msg|].
  - destruct Hin as [<-|[]]. discriminate.
  - destruct Hin as [<-|Hin]; [now right|].
    destruct (profileError env); [|destruct Hin].
    destruct Hin as [<-|[]]. discriminate.
Qed.

Lemma uploadAndSave_uploads (env : Backend) (a : Asset) (payload uid e n : string) :
  In (Upload (filePathOf uid (extensionOf a)) payload
             (contentTypeOf a (extensionOf a)))
     (uploadAndSave env a payload uid e n).
Proof. now left. Qed.

(** Inside [try], the store is only reached through [uploadAndSave], after
    a sign-up without error and with a user id that is not empty. *)
Lemma createAccount_storage (env : Backend) (a : Asset)
    (payload e pw n : string) (x : Action) :
  isStorage x = true ->
  In x (createAccount env a payload e pw n) ->
  error (signUp env) = None
  /\ exists uid, not_ uid = false
       /\ In x (uploadAndSave env a payload uid e n)
       /\ incl (uploadAndSave env a payload uid e n)
               (createAccount env a payload e pw n).
Proof.
  unfold createAccount. intros Hx [<-|Hin]; [discriminate|].
  destruct (error (signUp env)) as [msg|].
  { destruct Hin as [<-|[]]. discriminate. }
  split; [reflexivity|]. cbv zeta in *.
  assert (Hfail : ~ In x [Alert "Account created. Please sign in to continue.";
                         Navigate Auth]).
  { intros [<-|[<-|[]]]; discriminate. }
  destruct (data_session (data (signUp env))) as [s|].
  - destruct (userIdOf (data (signUp env))) as [[|c r]|];
      try (now apply Hfail in Hin).
    exists (String c r). split; [reflexivity|]. split; [exact Hin|].
    intros y Hy. now right.
  - destruct Hin as [<-|Hin]; [discriminate|].
    destruct (error (signInWithPassword env)); [now apply Hfail in Hin|].
    destruct (match data_session (data (signInWithPassword env)) with
              | Some s => Some (id (user s))
              | None => userIdOf (data (signUp env))
              end) as [[|c r]|]; try (now apply Hfail in Hin).
    exists (String c r). split; [reflexivity|]. split; [exact Hin|].
    intros y Hy. right. now right.
Qed.

(** X20. [handleCreateAccount] writes to the object store and to the
    profile table only for a signed-up user with a non-empty id.  Every
    upload carries the picked picture to the path made of that id and the
    extension of the picture; every profile row is written after an upload
    that succeeded, for the same id, with the name from the route, the
    trimmed e-mail address and the public url of the uploaded path. *)
Theorem storage_only_for_a_signed_up_user (env : Backend) (image : option Asset)
    (email password fullName : string) :
  let trace := handleCreateAccount env image email password fullName in
  (forall path payload contentType,
     In (Upload path payload contentType) trace ->
     error (signUp env) = None
     /\ exists a uid, image = Some a /\ base64 a = Some payload
          /\ not_ uid = false
          /\ path = filePathOf uid (extensionOf a)
          /\ contentType = contentTypeOf a (extensionOf a))
  /\ (forall uid name e url,
        In (UpsertProfile uid name e url) trace ->
        error (signUp env) = None /\ uploadError env = None
        /\ not_ uid = false /\ name = fullName /\ e = trim email
        /\ exists a payload, image = Some a
             /\ url = getPublicUrl env (filePathOf uid (extensionOf a))
             /\ In (Upload (filePathOf uid (extensionOf a)) payload
                           (contentTypeOf a (extensionOf a))) trace).
Proof.
  assert (Hcases :
    forall x, isStorage x = true ->
      In x (handleCreateAccount env image email password fullName) ->
      exists a payload, image = Some a /\ base64 a = Some payload
        /\ In x (createAccount env a payload (trim email) password fullName)
        /\ incl (createAccount env a payload (trim email) password fullName)
                (handleCreateAccount env image email password fullName)).
  { intros x Hx. unfold handleCreateAccount.
    destruct image as [[[[|u us]|] [[|b bs]|] f t]|];
      try (intros [<-|[]]; discriminate).
    destruct (not_ (trim email) || not_ password);
      [intros [<-|[<-|[]]]; discriminate|].
    cbv zeta. intros [<-|Hin]; [discriminate|].
    apply in_app_or in Hin as [Hin|[<-|[]]]; [|discriminate].
    eexists. eexists. split; [reflexivity|]. split; [reflexivity|].
    split; [exact Hin|].
    intros y Hy. right. apply in_or_app. now left. }
  cbv zeta. split.
  - intros path payload contentType Hin.
    set (x := Upload path payload contentType) in *.
    destruct (Hcases x eq_refl Hin) as (a & pl & Himg & Hb & Hc & _).
    destruct (createAccount_storage env a pl _ _ _ x eq_refl Hc)
      as (Herr & uid & Huid & Hu & _).
    split; [exact Herr|].
    destruct (uploadAndSave_storage env a pl uid _ _ x eq_refl Hu) as [E|[E _]];
      [|discriminate].
    inversion E. subst. now exists a, uid.
  - intros uid name e url Hin.
    set (x := UpsertProfile uid name e url) in *.
    destruct (Hcases x eq_refl Hin) as (a & pl & Himg & Hb & Hc & Hincl).
    destruct (createAccount_storage env a pl _ _ _ x eq_refl Hc)
      as (Herr & uid' & Huid & Hu & Hincl').
    destruct (uploadAndSave_storage env a pl uid' _ _ x eq_refl Hu) as [E|[E Hup]];
      [discriminate|].
    inversion E. subst. conjuncts; try reflexivity; try assumption.
    exists a, pl. conjuncts; try reflexivity.
    apply Hincl, Hincl', uploadAndSave_uploads.
Qed.

Lemma storage_only_for_a_signed_up_user_witness :
  In (UpsertProfile "u7" "Ann" "ann@example.org"
        "https://cdn.example.org/avatars/u7/profile.jpg")
     (handleCreateAccount welcoming (Some photo) " ann@example.org" "secret" "Ann")
  /\ uploadError welcoming = None.
Proof.
  assert (H : In (UpsertProfile "u7" "Ann" "ann@example.org"
                    "https://cdn.example.org/avatars/u7/profile.jpg")
                 (handleCreateAccount welcoming (Some photo) " ann@example.org"
                                      "secret" "Ann")).
  { vm_compute. tauto. }
  split; [exact H|].
  exact (proj1 (proj2 (proj2 (storage_only_for_a_signed_up_user welcoming (Some photo)
                                " ann@example.org" "secret" "Ann") _ _ _ _ H))).
Defined.

(** *** The extension of the picture *)

Lemma lowerUnit_idempotent (c : ascii) : lowerUnit (lowerUnit c) = lowerUnit c.
Proof. destruct c as [[] [] [] [] [] [] [] []]; reflexivity. Qed.

Lemma lowerUnit_dot (c : ascii) :
  Ascii.eqb (lowerUnit c) "." = Ascii.eqb c ".".
Proof. destruct c as [[] [] [] [] [] [] [] []]; reflexivity. Qed.

Lemma toLowerCase_idempotent (s : string) :
  toLowerCase (toLowerCase s) = toLowerCase s.
Proof.
  induction s as [|c rest IH]; simpl; [reflexivity|].
  now rewrite lowerUnit_idempotent, IH.
Qed.

Lemma toLowerCase_dot (s : string) :
  hasUnit "." (toLowerCase s) = hasUnit "." s.
Proof.
  induction s as [|c rest IH]; simpl; [reflexivity|].
  now rewrite lowerUnit_dot, IH.
Qed.

Lemma split_cons (sep : ascii) (s : string) :
  exists head tail, split sep s = head :: tail.
Proof.
  induction s as [|c rest (h & t & IH)]; simpl; [eauto|].
  destruct (Ascii.eqb c sep); [eauto|]. rewrite IH. eauto.
Qed.

(** No piece of a split contains the separator. *)
Lemma split_pieces (sep : ascii) (s x : string) :
  In x (split sep s) -> hasUnit sep x = false.
Proof.
  revert x. induction s as [|c rest IH]; simpl; intros x.
  - intros [<-|[]]. reflexivity.
  - destruct (Ascii.eqb c sep) eqn:Hc.
    + intros [<-|Hin]; [reflexivity | now apply IH].
    + destruct (split sep rest) as [|h t] eqn:E.
      * intros [<-|[]]. simpl. now rewrite Hc.
      * intros [<-|Hin].
        -- simpl. rewrite Hc. apply IH. now left.
        -- apply IH. now right.
Qed.

Lemma pop_In (l : list string) (x : string) : pop l = Some x -> In x l.
Proof.
  induction l as [|a l IH]; simpl; [discriminate|].
  destruct l as [|b l]; [intros H; inversion H; now left|].
  intros H. right. now apply IH.
Qed.

Lemma pop_cons (a b : string) (l : list string) : pop (a :: b :: l) = pop (b :: l).
Proof. reflexivity. Qed.

(** A string without the separator is its own only piece. *)
Lemma split_whole (sep : ascii) (s : string) :
  hasUnit sep s = false -> split sep s = [s].
Proof.
  induction s as [|c rest IH]; simpl; [reflexivity|].
  intros H. apply orb_false_iff in H as [Hc Hrest].
  now rewrite Hc, (IH Hrest).
Qed.

(** What follows the last separator is the last piece. *)
Lemma pop_split_suffix (sep : ascii) (stem ext : string) :
  hasUnit sep ext = false ->
  exists pieces,
    split sep (stem ++ String sep ext)%string = pieces ++ [ext]
    /\ pieces <> [].
Proof.
  intros Hext. induction stem as [|c rest (pieces & IH & Hne)]; simpl.
  - rewrite Ascii.eqb_refl, (split_whole sep ext Hext).
    exists [""]. split; [reflexivity | discriminate].
  - destruct (Ascii.eqb c sep).
    + rewrite IH. exists ("" :: pieces). split; [reflexivity | discriminate].
    + rewrite IH. destruct pieces as [|h t]; [contradiction|].
      simpl. exists (String c h :: t). split; [reflexivity | discriminate].
Qed.

Lemma pop_last (pieces : list string) (x : string) : pop (pieces ++ [x]) = Some x.
Proof.
  induction pieces as [|a l IH]; [reflexivity|].
  simpl app. destruct (l ++ [x]) as [|b l'] eqn:E.
  - destruct l; discriminate.
  - rewrite pop_cons. exact IH.
Qed.

(** X21. The extension under which the avatar is stored never contains a
    dot and is in lower case.  It is ["jpg"] when the picture has no file
    name, the lower-cased text after the last dot when the name has one,
    and the whole lower-cased name when it has none.  When the picker gives
    no type, the content type sent is ["image/"] followed by the
    extension, except that ["jpg"] is sent as ["image/jpeg"]. *)
Theorem extension_of_the_picture (image : Asset) :
  hasUnit "." (extensionOf image) = false
  /\ toLowerCase (extensionOf image) = extensionOf image
  /\ (fileName image = None -> extensionOf image = "jpg")
  /\ (forall stem ext,
        fileName image = Some (stem ++ String "." ext)%string ->
        hasUnit "." ext = false ->
        extensionOf image = toLowerCase ext)
  /\ (forall f, fileName image = Some f -> hasUnit "." f = false ->
        extensionOf image = toLowerCase f)
  /\ (type image = None ->
        contentTypeOf image (extensionOf image)
        = if String.eqb (extensionOf image) "jpg" then "image/jpeg"
          else ("image/" ++ extensionOf image)%string)
  /\ (type image = None ->
        startsWith "image/" (contentTypeOf image (extensionOf image)) = true).
Proof.
  unfold extensionOf, contentTypeOf. conjuncts.
  - destruct (fileName image) as [f|]; [|reflexivity].
    destruct (pop (split "." f)) as [last|] eqn:E; [|reflexivity].
    rewrite toLowerCase_dot. apply (split_pieces "." f). now apply pop_In.
  - destruct (fileName image) as [f|]; [|reflexivity].
    destruct (pop (split "." f)); [apply toLowerCase_idempotent | reflexivity].
  - now intros ->.
  - intros stem ext -> Hext.
    destruct (pop_split_suffix "." stem ext Hext) as (pieces & -> & _).
    now rewrite pop_last.
  - intros f -> Hf. now rewrite (split_whole "." f Hf).
  - now intros ->.
  - intros ->. destruct (String.eqb _ "jpg"); reflexivity.
Qed.

Lemma extension_of_the_picture_witness :
  fileName photo = Some ("IMG_0001" ++ String "." "JPG")%string
  /\ hasUnit "." "JPG" = false
  /\ extensionOf photo = "jpg".
Proof.
  split; [reflexivity|]. split; [reflexivity|].
  exact (proj1 (proj2 (proj2 (proj2 (extension_of_the_picture photo))))
           "IMG_0001" "JPG" eq_refl eq_refl).
Defined.

End SignupFacts.

(* ================================================================== *)
(** ** After an instance of [ChatThread] is closed *)

Module LifecycleFacts.
Import Js Thread ThreadTrace Lifecycle Scenario ThreadFacts ThreadMoreFacts.

Lemma dropped_keeps_ui {A : Type} (a : Act A) (w : World) :
  ui (snd (perform (dropSetters a) w)) = ui w
  /\ liveLoad (snd (perform (dropSetters a) w)) = liveLoad w
  /\ channel (snd (perform (dropSetters a) w)) = channel w.
Proof.
  unfold perform, dropSetters. destruct (a (ui w)) as [[v s'] out]. now simpl.
Qed.

(** A late answer at an unmounted instance changes no state cell and
    reopens nothing. *)
Lemma late_keeps_ui (w : World) (e : Late) :
  ui (late w e) = ui w
  /\ liveLoad (late w e) = liveLoad w
  /\ channel (late w e) = channel w.
Proof.
  destruct e as [n r|m|r]; unfold late, perform_.
  - apply dropped_keeps_ui.
  - destruct (channel w) eqn:Hc; [|now rewrite Hc].
    destruct (dropped_keeps_ui (onInsert m) w) as (-> & -> & ->). auto.
  - destruct (inflight w) as [k|]; [|auto]. cbn [ui liveLoad channel].
    apply dropped_keeps_ui.
Qed.

Lemma lates_keep_ui (lates : list Late) (w : World) :
  ui (fold_left late lates w) = ui w
  /\ liveLoad (fold_left late lates w) = liveLoad w
  /\ channel (fold_left late lates w) = channel w.
Proof.
  revert w. induction lates as [|e lates IH]; intros w; [auto|].
  simpl. destruct (IH (late w e)) as (-> & -> & ->). apply late_keeps_ui.
Qed.

(** All a late answer adds to the trace is alerts. *)
Lemma late_emits_alerts (w : World) (e : Late) :
  exists out, effects (late w e) = effects w ++ out /\ forallb isAlert out = true.
Proof.
  destruct e as [n r|m|r]; unfold late, perform_, perform, dropSetters.
  - unfold loadMessages_resume. destruct (isLive w n); [|exists []; cbn; auto].
    destruct (error r); eexists; cbn; (split; [reflexivity|]); reflexivity.
  - destruct (channel w); [|exists []; rewrite app_nil_r; auto].
    exists []. cbn. auto.
  - destruct (inflight w) as [k|]; [|exists []; rewrite app_nil_r; auto].
    unfold sendMessage_resume.
    destruct (error r); [|destruct (data r)];
      eexists; cbn; (split; [reflexivity|]); reflexivity.
Qed.

Lemma lates_emit_alerts (lates : list Late) (w : World) :
  exists out, effects (fold_left late lates w) = effects w ++ out
              /\ forallb isAlert out = true.
Proof.
  revert w. induction lates as [|e lates IH]; intros w.
  - exists []. simpl. rewrite app_nil_r. auto.
  - simpl. destruct (late_emits_alerts w e) as (out1 & E1 & A1).
    destruct (IH (late w e)) as (out2 & E2 & A2).
    exists (out1 ++ out2). rewrite E2, E1, <- app_assoc, forallb_app, A1, A2. auto.
Qed.

(** An id made by [sendMessage] is not the id of any confirmed entry. *)
Lemma token_absent_among_confirmed (token : Id) (l : list Message) :
  isTemp token = true ->
  forallb isConfirmed l = true ->
  existsb (fun message => strictEq (id message) token) l = false.
Proof.
  intros Ht. induction l as [|x l IH]; simpl; [reflexivity|].
  intros H. apply andb_true_iff in H as [Hx Hl].
  destruct (pending_differs_from_confirmed token (id x) Ht Hx) as [_ ->].
  now apply IH.
Qed.

Lemma switch_outcome (p next : Props) (w : World) :
  messages (ui (switchConversation p next w)) = []
  /\ sendingMessage (ui (switchConversation p next w)) = sendingMessage (ui w)
  /\ inflight (switchConversation p next w) = inflight w
  /\ liveLoad (switchConversation p next w) = Some (loadRuns w)
  /\ loadRuns (switchConversation p next w) = S (loadRuns w)
  /\ (channel w = true ->
      In (RemoveChannel (conversationId p)) (effects (switchConversation p next w))).
Proof.
  unfold switchConversation, runChannelEffect.
  destruct (not_ (conversationId next)); cbn; conjuncts; try reflexivity;
    intros ->; rewrite ?in_app_iff; simpl; auto 10.
Qed.

Lemma awaiting_step (p : Props) (k : SendCont) (w : World) (e : Event) :
  fromBackend e = true ->
  match e with InsertSettled _ => false | _ => true end = true ->
  awaiting k w -> awaiting k (step p w e).
Proof.
  intros Hb Hno (Hk & Hs & Hc). unfold awaiting.
  destruct e as [text|now iso|r|m| |n r| ]; try discriminate; unfold step.
  - now rewrite Hs.
  - unfold perform, sendMessage_begin. rewrite Hs.
    destruct (not_ (trim (messageText (ui w)))); cbn; auto.
  - destruct (channel w); [|auto]. unfold perform_, perform, onInsert. cbn.
    destruct (existsb _ (messages (ui w))); [auto|].
    rewrite forallb_app, Hc. simpl in *. now rewrite Hb.
  - cbn. auto.
  - unfold perform_, perform, loadMessages_resume.
    destruct (isLive w n); [|auto]. simpl negb. cbv iota.
    destruct (error r); cbn; [auto|].
    conjuncts; try assumption. simpl in Hb. destruct (data r); [exact Hb | reflexivity].
  - cbn. auto.
Qed.

Lemma awaiting_run (p : Props) (k : SendCont) (es : list Event) (w : World) :
  forallb fromBackend es = true ->
  noInsertAnswer es = true ->
  awaiting k w -> awaiting k (run p w es).
Proof.
  revert w. induction es as [|e es IH]; intros w Hb Hno Hw; [exact Hw|].
  simpl in Hb, Hno. apply andb_true_iff in Hb as [He Hes].
  apply andb_true_iff in Hno as [Hne Hnes].
  simpl. apply IH; try assumption. now apply awaiting_step.
Qed.

(** The answer that arrives while it is awaited finds no entry to replace
    or to remove. *)
Lemma awaited_answer_keeps_messages (p : Props) (k : SendCont) (w : World)
    (r : Response Message) :
  isTemp (optimisticId k) = true ->
  awaiting k w ->
  messages (ui (step p w (InsertSettled r))) = messages (ui w).
Proof.
  intros Ht (Hk & _ & Hc). unfold step. rewrite Hk.
  pose proof (token_absent_among_confirmed _ _ Ht Hc) as Habsent.
  unfold perform_, perform, sendMessage_resume.
  destruct (error r); [|destruct (data r)]; cbn.
  - now apply filter_absent.
  - now apply replace_absent.
  - reflexivity.
Qed.

(** After the change the run that is listened to is one issued at the
    change or later. *)
Lemma runs_after (p : Props) (es : list Event) (w : World) :
  (forall n, liveLoad w = Some n -> S n = loadRuns w) ->
  (forall n, liveLoad (run p w es) = Some n -> S n = loadRuns (run p w es))
  /\ (loadRuns w <= loadRuns (run p w es))%nat.
Proof.
  revert w. induction es as [|e es IH]; intros w H;
    [simpl; split; [exact H | lia]|].
  simpl. destruct (step_load_runs p w e H) as [H1 Hle].
  destruct (IH (step p w e) H1) as [H2 Hle2]. split; [exact H2 | lia].
Qed.

(** C8. Once an instance is closed, nothing that still arrives for it
    changes the timeline.  Removed from the screen: the answer of a load is
    stopped by its mounted-check and a pushed row by the removal of the
    channel, with the setters still live; and with the setters dropped, as
    for every unmounted component, no late answer, that of the insert
    included, changes any state cell: all it can still do is raise an
    alert.  Given another conversation: the
    timeline is emptied, the old channel is removed, the answer to a load
    run of the old conversation leaves the instance as it is, and the
    answer of the insert that was outstanding at the change, whenever it
    arrives, leaves the timeline as it finds it. *)
Theorem closed_instance_keeps_timeline (p next : Props) (es arrived : list Event)
    (lates : list Late) (n : nat) (rl : Response (list Message))
    (m : Message) (ri : Response Message) :
  forallb fromBackend es = true ->
  forallb fromBackend arrived = true ->
  noInsertAnswer arrived = true ->
  let w := run p (mount p) es in
  let gone := unmount p w in
  let moved := switchConversation p next w in
  let later := run next moved arrived in
  (liveLoad gone = None /\ channel gone = false
   /\ ui (step p gone (LoadSettled n rl)) = ui gone
   /\ step p gone (Pushed m) = gone
   /\ ui (fold_left late lates gone) = ui w
   /\ liveLoad (fold_left late lates gone) = None
   /\ channel (fold_left late lates gone) = false
   /\ exists alerts, effects (fold_left late lates gone) = effects gone ++ alerts
                     /\ forallb isAlert alerts = true)
  /\ (messages (ui moved) = []
      /\ (channel w = true -> In (RemoveChannel (conversationId p)) (effects moved))
      /\ ((n < loadRuns w)%nat -> step next later (LoadSettled n rl) = later)
      /\ (forall k, inflight w = Some k ->
            messages (ui (step next later (InsertSettled ri)))
            = messages (ui later))).
Proof.
  intros Hes Harr Hno w gone moved later.
  pose proof (Inv_run p es (mount p) Hes (Inv_mount p)) as I. fold w in I.
  destruct (switch_outcome p next w) as (Hm & Hs & Hf & Hlive & Hruns & Hrem).
  fold moved in Hm, Hs, Hf, Hlive, Hruns, Hrem.
  split.
  - destruct (lates_keep_ui lates gone) as (Hu & Hl & Hc).
    conjuncts; try reflexivity; try assumption.
    apply lates_emit_alerts.
  - conjuncts.
    + exact Hm.
    + exact Hrem.
    + intros Hn.
      assert (Hmoved : forall l, liveLoad moved = Some l -> S l = loadRuns moved).
      { intros l Hl. rewrite Hlive in Hl. inversion Hl. now rewrite Hruns. }
      destruct (runs_after next arrived moved Hmoved) as [Hlater Hle].
      fold later in Hlater, Hle.
      assert (Hstale : isLive later n = false).
      { unfold isLive. destruct (liveLoad later) as [l|]; [|reflexivity].
        specialize (Hlater l eq_refl). apply Nat.eqb_neq. lia. }
      unfold step, perform_, perform. rewrite Hstale. cbn.
      rewrite app_nil_r. apply world_eta.
    + intros k Hk. apply (awaited_answer_keeps_messages next k).
      * exact (inv_token _ _ I k Hk).
      * apply awaiting_run; try assumption.
        unfold awaiting. rewrite Hf, Hs, Hm.
        pose proof (inv_flag _ _ I) as Hflag. rewrite Hk in Hflag. auto.
Qed.

Lemma closed_instance_keeps_timeline_witness :
  forallb fromBackend sending = true
  /\ forallb fromBackend arrivals = true
  /\ noInsertAnswer arrivals = true
  /\ inflight (run props (mount props) sending) = Some hiCont
  /\ (0 < loadRuns (run props (mount props) sending))%nat
  /\ ui (fold_left late [LateInsert (ok m1); LateLoad 0 (ok [m0])]
                   (unmount props (run props (mount props) sending)))
     = ui (run props (mount props) sending)
  /\ messages (ui (step nextProps
                     (run nextProps
                        (switchConversation props nextProps
                           (run props (mount props) sending)) arrivals)
                     (InsertSettled (ok m1))))
     = messages (ui (run nextProps
                       (switchConversation props nextProps
                          (run props (mount props) sending)) arrivals)).
Proof.
  assert (H1 : forallb fromBackend sending = true) by (vm_compute; reflexivity).
  assert (H2 : forallb fromBackend arrivals = true) by (vm_compute; reflexivity).
  assert (H3 : noInsertAnswer arrivals = true) by (vm_compute; reflexivity).
  assert (H4 : inflight (run props (mount props) sending) = Some hiCont)
    by (vm_compute; reflexivity).
  assert (H5 : (0 < loadRuns (run props (mount props) sending))%nat)
    by (apply Nat.ltb_lt; vm_compute; reflexivity).
  destruct (closed_instance_keeps_timeline props nextProps sending arrivals
              [LateInsert (ok m1); LateLoad 0 (ok [m0])] 0 (ok [m0]) m0
              (ok m1) H1 H2 H3)
    as [(_ & _ & _ & _ & Hgone & _) (_ & _ & _ & Hmoved)].
  conjuncts; try assumption. exact (Hmoved hiCont H4).
Defined.

End LifecycleFacts.
